(** * Has-many relation: query builder and query client

    A shallow embedding of
      src/Orm/Relations/HasMany/QueryBuilder.ts
      src/Orm/Relations/HasMany/QueryClient.ts
    JavaScript objects live in a store indexed by references, so that
    two uses of the same row or payload object see each other's writes.
    Asynchronous methods are sequential: every [await] is a plain bind
    of a state-and-exception monad. *)

From stdpp Require Import gmap strings list fin_maps.
From Stdlib Require Import ZArith.

Open Scope string_scope.
Open Scope list_scope.

(** ** JavaScript values *)

Module Js.

(** Scalar values, as they occur as key values and field names. *)
Inductive Value :=
| VUndefined
| VNull
| VBool (b : bool)
| VNum (n : Z)
| VStr (s : string).

#[global] Instance Value_eq_dec : EqDecision Value.
Proof. solve_decision. Defined.

(** A value of type [any] as the batch operations receive it: a scalar
    or an array of scalars. *)
Inductive Any :=
| AVal (v : Value)
| AArr (items : list Value).

(** Truthiness of a scalar, as the conditional operator tests it. *)
Definition truthy (v : Value) : bool :=
  match v with
  | VUndefined | VNull => false
  | VBool b => b
  | VNum n => negb (Z.eqb n 0)
  | VStr s => negb (String.eqb s "")
  end.

(** A plain object: property names to values. *)
Abbreviation Fields := (gmap string Value).

(** [o[k]]: reading an absent property gives [undefined]. *)
Definition getField (o : Fields) (k : string) : Value :=
  default VUndefined (o !! k).

(** [o[k] = v] *)
Definition setField (o : Fields) (k : string) (v : Value) : Fields :=
  <[k := v]> o.

(** What a [throw] carries. *)
Inductive Exception :=
| MissingKeyError (action relationName key : string)
| ConstraintViolationError (detail : string)
| TransactionError (detail : string).

(** The outcome of a call: a returned value or a thrown exception. *)
Inductive Result (A : Type) :=
| Ok (a : A)
| Thrown (e : Exception).
Arguments Ok {A} a.
Arguments Thrown {A} e.

(** [xs.map(f)] for a callback that may throw: the first throw aborts
    the whole map. *)
Fixpoint mapResult {A B} (f : A -> Result B) (xs : list A) : Result (list B) :=
  match xs with
  | [] => Ok []
  | x :: rest =>
      match f x with
      | Thrown e => Thrown e
      | Ok y =>
          match mapResult f rest with
          | Thrown e => Thrown e
          | Ok ys => Ok (y :: ys)
          end
      end
  end.

End Js.
Export Js.

(** ** Rows, references and the relation descriptor *)

(** References to objects of the store. *)
Abbreviation ref := positive.

(** A transaction client, identified by its handle. *)
Abbreviation TransactionClientContract := nat.

(** A connection to the database, as a plain query client holds it. *)
Record Connection := { connectionName : string }.

#[global] Instance Connection_eq_dec : EqDecision Connection.
Proof. solve_decision. Defined.

(** [QueryClientContract]: a plain query client on a connection, or a
    transaction client, which is a query client too and answers
    [isTransaction] with true. *)
Inductive QueryClientContract :=
| PlainClient (c : Connection)
| TrxClient (trx : TransactionClientContract).

#[global] Instance QueryClientContract_eq_dec : EqDecision QueryClientContract.
Proof. solve_decision. Defined.

(** A model instance: its attributes and its [$trx] slot. *)
Record LucidRow := {
  attributes : Fields;
  trx : option TransactionClientContract
}.

#[global] Instance LucidRow_inhabited : Inhabited LucidRow :=
  populate {| attributes := ∅; trx := None |}.

(** [row[key]] *)
Definition rowField (row : LucidRow) (key : string) : Value :=
  getField (attributes row) key.

(** The statements a knex builder has collected. *)
Inductive Clause :=
| Where (column : string) (value : Value)
| WhereIn (column : string) (values : list Value).

Record KnexBuilder := {
  method : string;
  statements : list Clause
}.

(** The state a relation builder inherits from the model query
    builder. The relation's query hook works on it. *)
Record ModelQueryBuilder := {
  knexBuilder : KnexBuilder;
  appliedConstraints : bool;
  isRelatedPreloadQuery : bool
}.

(** The has-many relation, as far as the two files read it. *)
Record HasMany := {
  relationName : string;
  localKey : string;
  foreignKey : string;
  foreignCastAsKey : string;
  onQueryHook : option (ModelQueryBuilder -> ModelQueryBuilder)
}.

(** ** utils *)

Module Utils.

(** Modelled from the spec: [getValue] of utils, the spec's
    [resolve(row, keyDescriptor, relation, operationKind)]. It reads
    the field named by the key from the row and fails with a missing-key
    error when the field is undefined or null. *)
Definition getValue (model : Fields) (key : string) (relation : HasMany)
    (action : string) : Result Value :=
  match getField model key with
  | VUndefined | VNull => Thrown (MissingKeyError action (relationName relation) key)
  | v => Ok v
  end.

(** Modelled from the spec: [unique] of utils, the spec's
    [dedupe(values)]: the distinct values of a sequence. The spec fixes
    no order; this model keeps each value at its first occurrence. *)
Fixpoint uniqueFrom (seen : list Value) (values : list Value) : list Value :=
  match values with
  | [] => []
  | v :: rest =>
      if bool_decide (v ∈ seen) then uniqueFrom seen rest
      else v :: uniqueFrom (v :: seen) rest
  end.

Definition unique (values : list Value) : list Value := uniqueFrom [] values.

End Utils.
Export Utils.

(** ** HasManyQueryBuilder (QueryBuilder.ts) *)

Module HasManyQueryBuilder.

(** [parent: ModelContract | ModelContract[]] *)
Inductive Parent :=
| One (model : ref)
| Many (models : list ref).

Record t := {
  base : ModelQueryBuilder;
  client : QueryClientContract;
  parent : Parent;
  relation : HasMany;
  isEager : bool
}.

(** [new HasManyQueryBuilder(builder, client, parent, relation, isEager = false)] *)
Definition new (builder : KnexBuilder) (client : QueryClientContract)
    (parent : Parent) (relation : HasMany) (isEager : bool) : t :=
  {| base := {| knexBuilder := builder;
                appliedConstraints := false;
                isRelatedPreloadQuery := false |};
     client := client; parent := parent; relation := relation;
     isEager := isEager |}.

(** The callback the constructor hands to its base class,
    [(userFn) => (__builder) => { userFn(new HasManyQueryBuilder(__builder,
    this.client, this.parent, this.relation)) }]: the user's function
    works on a relation builder of its own around the knex builder it
    is given. The result is that builder as the user's function leaves
    it. *)
Definition wrapCallback (this : t) (userFn : t -> t) (__builder : KnexBuilder)
    : t :=
  userFn (new __builder (client this) (parent this) (relation this) false).

Definition withBase (this : t) (b : ModelQueryBuilder) : t :=
  {| base := b; client := client this; parent := parent this;
     relation := relation this; isEager := isEager this |}.

(** [this.$appliedConstraints = true] *)
Definition markApplied (this : t) : t :=
  withBase this
    {| knexBuilder := knexBuilder (base this);
       appliedConstraints := true;
       isRelatedPreloadQuery := isRelatedPreloadQuery (base this) |}.

(** [this.$knexBuilder.where(..)] and [this.$knexBuilder.whereIn(..)]:
    one more statement on the knex builder. *)
Definition addClause (this : t) (c : Clause) : t :=
  withBase this
    {| knexBuilder := {| method := method (knexBuilder (base this));
                         statements := statements (knexBuilder (base this)) ++ [c] |};
       appliedConstraints := appliedConstraints (base this);
       isRelatedPreloadQuery := isRelatedPreloadQuery (base this) |}.

Section WithQueryAction.

(** [$queryAction()] belongs to the base builder class, outside src: it
    names the operation of the underlying knex builder and only ends up
    in the message of the missing-key error. *)
Variable queryAction : KnexBuilder -> string.

(** [applyConstraints()], run against the store [rows] the parent
    references point into. Returns the outcome and the builder after
    the call. *)
Definition applyConstraints (rows : gmap ref LucidRow) (this : t)
    : Result unit * t :=
  if appliedConstraints (base this) then (Ok tt, this)
  else
    let action := queryAction (knexBuilder (base this)) in
    let this := markApplied this in
    match parent this with
    | Many models =>
        match mapResult (fun model =>
                 getValue (attributes (rows !!! model))
                          (localKey (relation this)) (relation this) action)
               models with
        | Thrown e => (Thrown e, this)
        | Ok values =>
            (Ok tt, addClause this
                      (WhereIn (foreignCastAsKey (relation this)) (unique values)))
        end
    | One model =>
        match getValue (attributes (rows !!! model))
                       (localKey (relation this)) (relation this) action with
        | Thrown e => (Thrown e, this)
        | Ok value =>
            (Ok tt, addClause this
                      (Where (foreignCastAsKey (relation this)) value))
        end
    end.

(** The local-key values of the bound parent or parents, resolved as
    [applyConstraints] resolves them: one value for a single row, one
    per row for a sequence. *)
Definition resolvedKeys (rows : gmap ref LucidRow) (this : t)
    : Result (list Value) :=
  mapResult (fun model =>
      getValue (attributes (rows !!! model)) (localKey (relation this))
               (relation this) (queryAction (knexBuilder (base this))))
    match parent this with
    | One model => [model]
    | Many models => models
    end.

End WithQueryAction.

(** The predicates the builder has collected so far. *)
Definition predicates (this : t) : list Clause :=
  statements (knexBuilder (base this)).

(** [getRelationKeys()] *)
Definition getRelationKeys (this : t) : list string :=
  [foreignCastAsKey (relation this)].

End HasManyQueryBuilder.

(** ** The database behind the clients *)

Module Database.

(** One persisted row state: which row object was persisted, and with
    which field values. *)
Record Write := { writtenRow : ref; writtenFields : Fields }.

(** Modelled from the spec: the transaction layer [begin], [commit],
    [rollback] of the external interfaces. Writes made through a
    transaction stay pending under its handle until it is committed;
    a rollback discards them. Writes made through no transaction are
    committed at once. *)
Record t := {
  committed : list Write;
  pending : gmap nat (list Write);
  nextHandle : nat
}.

Definition pendingOf (db : t) (trx : nat) : list Write :=
  default [] (pending db !! trx).

Definition begin (db : t) : nat * t :=
  (nextHandle db,
   {| committed := committed db;
      pending := <[nextHandle db := []]> (pending db);
      nextHandle := S (nextHandle db) |}).

Definition commit (trx : nat) (db : t) : t :=
  {| committed := committed db ++ pendingOf db trx;
     pending := delete trx (pending db);
     nextHandle := nextHandle db |}.

Definition rollback (trx : nat) (db : t) : t :=
  {| committed := committed db;
     pending := delete trx (pending db);
     nextHandle := nextHandle db |}.

Definition write (via : option nat) (w : Write) (db : t) : t :=
  match via with
  | Some trx =>
      {| committed := committed db;
         pending := <[trx := pendingOf db trx ++ [w]]> (pending db);
         nextHandle := nextHandle db |}
  | None =>
      {| committed := committed db ++ [w];
         pending := pending db;
         nextHandle := nextHandle db |}
  end.

End Database.

(** ** Calls into the related model *)

(** [ModelAssignOptions] is declared outside src. Its [client]
    property is optional: the object may have no such property
    ([None]), or have it holding [undefined] ([Some None]) or a client.
    The methods spread the caller's options after [client: trx], so a
    [client] property of the options, whatever it holds, replaces [trx]
    in the literal. *)
Record ModelAssignOptions := {
  optionsClient : option (option QueryClientContract);
  optionsRest : Fields
}.

(** The options object the related model receives; its [client] may be
    [undefined] ([None]). *)
Record AdapterOptions := {
  adapterClient : option QueryClientContract;
  adapterRest : Fields
}.

(** [{ client: trx, ...options }] *)
Definition spreadOptions (trx : TransactionClientContract)
    (options : option ModelAssignOptions) : AdapterOptions :=
  match options with
  | None => {| adapterClient := Some (TrxClient trx); adapterRest := ∅ |}
  | Some o =>
      {| adapterClient := default (Some (TrxClient trx)) (optionsClient o);
         adapterRest := optionsRest o |}
  end.

(** The static persistence methods of the related model, with the
    arguments they are called with. Payload objects are recorded with
    the field values they hold at the call. *)
Inductive RelatedCall :=
| RelatedCreate (values : Fields) (options : AdapterOptions)
| RelatedCreateMany (values : list Fields) (options : AdapterOptions)
| RelatedFirstOrCreate (search : Fields) (savePayload : option Fields)
    (options : AdapterOptions)
| RelatedUpdateOrCreate (search updatePayload : Fields)
    (options : AdapterOptions)
| RelatedFetchOrCreateMany (predicate : list Value) (payload : list Fields)
    (options : AdapterOptions)
| RelatedUpdateOrCreateMany (predicate : list Value) (payload : list Fields)
    (options : AdapterOptions).

(** What a method hands back to its caller. *)
Inductive Returned :=
| RVoid
| RRow (row : ref)
| RRows (rows : list ref).

(** ** The world the query client runs in *)

(** What the query client asks of its collaborators, in call order.
    Persistence steps carry the row store as it is when they start. *)
Inductive Event :=
| TransactionBegun (client : QueryClientContract) (trx : nat)
| TransactionCommitted (trx : nat)
| TransactionRolledBack (trx : nat)
| RowSaved (row : ref) (store : gmap ref LucidRow)
| RelatedCalled (call : RelatedCall) (store : gmap ref LucidRow).

Record World := {
  rows : gmap ref LucidRow;
  objects : gmap ref Fields;
  db : Database.t;
  trace : list Event
}.

Definition withRows (w : World) (rs : gmap ref LucidRow) : World :=
  {| rows := rs; objects := objects w; db := db w; trace := trace w |}.

Definition withObjects (w : World) (os : gmap ref Fields) : World :=
  {| rows := rows w; objects := os; db := db w; trace := trace w |}.

Definition withDb (w : World) (d : Database.t) : World :=
  {| rows := rows w; objects := objects w; db := d; trace := trace w |}.

Definition logged (w : World) (e : Event) : World :=
  {| rows := rows w; objects := objects w; db := db w;
     trace := trace w ++ [e] |}.

(** Computations over the world that return or throw. The world
    survives a throw: what was done before it stays done. *)
Definition M (A : Type) : Type := World -> Result A * World.

Definition ret {A} (a : A) : M A := fun w => (Ok a, w).

Definition bind {A B} (m : M A) (k : A -> M B) : M B :=
  fun w =>
    match m w with
    | (Ok a, w1) => k a w1
    | (Thrown e, w1) => (Thrown e, w1)
    end.

Notation "'let*' x ':=' m 'in' k" := (bind m (fun x => k))
  (at level 10, x binder, k at level 200).
Notation "m ';;' k" := (bind m (fun _ => k))
  (at level 100, k at level 200, right associativity).

(** [for (let x of xs) { body(x) }] and [xs.forEach(body)] *)
Fixpoint forEach {A} (body : A -> M unit) (xs : list A) : M unit :=
  match xs with
  | [] => ret tt
  | x :: rest => body x ;; forEach body rest
  end.

(** [xs.map(f)] with a callback that works on the world. *)
Fixpoint mapM {A B} (f : A -> M B) (xs : list A) : M (list B) :=
  match xs with
  | [] => ret []
  | x :: rest =>
      let* y := f x in
      let* ys := mapM f rest in
      ret (y :: ys)
  end.

(** [row.$trx = trx] *)
Definition setTrx (row : ref) (h : TransactionClientContract) : M unit :=
  fun w =>
    (Ok tt,
     withRows w (<[row := {| attributes := attributes (rows w !!! row);
                             trx := Some h |}]> (rows w))).

(** [Object.assign({}, source)]: a new object with the source's
    properties. *)
Definition objectAssign (source : ref) : M ref :=
  fun w =>
    let target := fresh (dom (objects w)) in
    (Ok target, withObjects w (<[target := objects w !!! source]> (objects w))).

(** [ModelObject | LucidRow]: what the relation hydrates. *)
Inductive Persistable :=
| ARow (row : ref)
| AnObject (object : ref).

(** Modelled from the spec: [hydrateForPersistance] of the relation,
    the spec's [hydrate(parent, childOrPayload)]. It sets the
    foreign-key field of the child or payload, in place, to the
    parent's resolved local-key value. *)
Definition hydrateForPersistance (relation : HasMany) (parent : ref)
    (target : Persistable) : M unit :=
  fun w =>
    match getValue (attributes (rows w !!! parent)) (localKey relation)
                   relation "persist" with
    | Thrown e => (Thrown e, w)
    | Ok value =>
        match target with
        | ARow row =>
            (Ok tt,
             withRows w
               (<[row := {| attributes :=
                              setField (attributes (rows w !!! row))
                                       (foreignKey relation) value;
                            trx := trx (rows w !!! row) |}]> (rows w)))
        | AnObject object =>
            (Ok tt,
             withObjects w
               (<[object := setField (objects w !!! object)
                                     (foreignKey relation) value]> (objects w)))
        end
    end.

(** Modelled from the spec: [managedTransaction] of utils, the spec's
    [run(existingHandleOrClient, work)]. Given a transaction client it
    runs the work with it and neither commits nor rolls back; given a
    plain client it opens a transaction, runs the work, commits on a
    normal return, and on a failure of the work rolls back and throws
    the failure again. *)
Definition managedTransaction {A} (client : QueryClientContract)
    (callback : TransactionClientContract -> M A) : M A :=
  match client with
  | TrxClient h => callback h
  | PlainClient c =>
      fun w =>
        let '(h, opened) := Database.begin (db w) in
        match callback h
                (logged (withDb w opened) (TransactionBegun (PlainClient c) h))
        with
        | (Ok response, w1) =>
            (Ok response,
             logged (withDb w1 (Database.commit h (db w1)))
                    (TransactionCommitted h))
        | (Thrown e, w1) =>
            (Thrown e,
             logged (withDb w1 (Database.rollback h (db w1)))
                    (TransactionRolledBack h))
        end
  end.

(** ** HasManySubQueryBuilder, as far as the query client uses it *)

Module HasManySubQueryBuilder.

Record t := {
  base : ModelQueryBuilder;
  client : QueryClientContract;
  relation : HasMany
}.

(** [new HasManySubQueryBuilder(builder, client, relation)]: a builder
    bound to no parent. *)
Definition new (builder : KnexBuilder) (client : QueryClientContract)
    (relation : HasMany) : t :=
  {| base := {| knexBuilder := builder;
                appliedConstraints := false;
                isRelatedPreloadQuery := false |};
     client := client; relation := relation |}.

Definition withBase (this : t) (b : ModelQueryBuilder) : t :=
  {| base := b; client := client this; relation := relation this |}.

End HasManySubQueryBuilder.

(** ** HasManyQueryClient (QueryClient.ts) *)

Module HasManyQueryClient.

Record t := {
  relation : HasMany;
  parent : ref;
  client : QueryClientContract
}.

(** [client.knexQuery()]: a new knex builder, which has collected no
    statement yet. *)
Definition knexQuery (client : QueryClientContract) : KnexBuilder :=
  {| method := "select"; statements := [] |}.

(** A builder together with the builders the relation's query hook was
    called with while it was made. *)
Definition Hooked (B : Type) : Type := B * list B.

(** [typeof relation.onQueryHook === 'function' && relation.onQueryHook(query)] *)
Definition callQueryHook {B} (getBase : B -> ModelQueryBuilder)
    (setBase : B -> ModelQueryBuilder -> B) (relation : HasMany) (query : B)
    : Hooked B :=
  match onQueryHook relation with
  | Some hook => (setBase query (hook (getBase query)), [query])
  | None => (query, [])
  end.

(** [query.isRelatedPreloadQuery = true] *)
Definition markPreload (query : HasManyQueryBuilder.t) : HasManyQueryBuilder.t :=
  HasManyQueryBuilder.withBase query
    {| knexBuilder := knexBuilder (HasManyQueryBuilder.base query);
       appliedConstraints := appliedConstraints (HasManyQueryBuilder.base query);
       isRelatedPreloadQuery := true |}.

(** [static query(client, relation, row)] *)
Definition query (client : QueryClientContract) (relation : HasMany)
    (row : ref) : Hooked HasManyQueryBuilder.t :=
  let query :=
    HasManyQueryBuilder.new (knexQuery client) client
      (HasManyQueryBuilder.One row) relation false in
  callQueryHook HasManyQueryBuilder.base HasManyQueryBuilder.withBase
    relation query.

(** [static eagerQuery(client, relation, rows)], with
    [rows: OneOrMany<LucidRow>] *)
Definition eagerQuery (client : QueryClientContract) (relation : HasMany)
    (rows : HasManyQueryBuilder.Parent) : Hooked HasManyQueryBuilder.t :=
  let query :=
    HasManyQueryBuilder.new (knexQuery client) client rows relation false in
  let query := markPreload query in
  callQueryHook HasManyQueryBuilder.base HasManyQueryBuilder.withBase
    relation query.

(** [static subQuery(client, relation)] *)
Definition subQuery (client : QueryClientContract) (relation : HasMany)
    : Hooked HasManySubQueryBuilder.t :=
  let query := HasManySubQueryBuilder.new (knexQuery client) client relation in
  callQueryHook HasManySubQueryBuilder.base HasManySubQueryBuilder.withBase
    relation query.

(** The instance method [query()] *)
Definition instanceQuery (this : t) : Hooked HasManyQueryBuilder.t :=
  query (client this) (relation this) (parent this).

(** [this.parent.$trx || this.client]: the client of the query client
    may itself be a transaction client. *)
Definition trxOrClient (this : t) : M QueryClientContract :=
  fun w =>
    (Ok match trx (rows w !!! parent this) with
        | Some h => TrxClient h
        | None => client this
        end, w).

(** [Array.isArray(predicate) ? predicate : predicate ? [predicate] : []]:
    an array stays as it is, any other value is tested for truthiness. *)
Definition normalizePredicate (predicate : Any) : list Value :=
  match predicate with
  | AArr items => items
  | AVal v => if truthy v then [v] else []
  end.

Section Collaborators.

(** The storage layer under [row.save()]: for a row in its current
    state, either the field values as stored (with generated keys
    assigned) or the failure of the write. *)
Variable persist : Database.t -> LucidRow -> Result Fields.

(** [this.relation.relatedModel()]: the related model's static
    persistence methods, outside src. A call works on the rows and the
    database, and returns or throws. *)
Variable relatedModel :
  RelatedCall -> gmap ref LucidRow -> Database.t ->
  Result Returned * gmap ref LucidRow * Database.t.

(** Modelled from the spec: [save()] of the row contract. It persists
    the current field state through the row's transaction slot and
    takes over the stored values (generated keys). *)
Definition rowSave (row : ref) : M unit :=
  fun w =>
    let this := rows w !!! row in
    let w := logged w (RowSaved row (rows w)) in
    match persist (db w) this with
    | Thrown e => (Thrown e, w)
    | Ok stored =>
        (Ok tt,
         withDb
           (withRows w (<[row := {| attributes := stored; trx := trx this |}]>
                          (rows w)))
           (Database.write (trx this)
              {| Database.writtenRow := row; Database.writtenFields := stored |}
              (db w)))
    end.

(** A call of one of the related model's static methods. *)
Definition callRelated (call : RelatedCall) : M Returned :=
  fun w =>
    let w := logged w (RelatedCalled call (rows w)) in
    match relatedModel call (rows w) (db w) with
    | (result, rs, d) => (result, withDb (withRows w rs) d)
    end.

(** Reading a payload object, to pass it on. *)
Definition readObject (object : ref) : M Fields :=
  fun w => (Ok (objects w !!! object), w).

(** [save(related)] *)
Definition save (this : t) (related : ref) : M Returned :=
  let* target := trxOrClient this in
  let* _ :=
    managedTransaction target (fun trx =>
      setTrx (parent this) trx ;;
      rowSave (parent this) ;;
      hydrateForPersistance (relation this) (parent this) (ARow related) ;;
      setTrx related trx ;;
      rowSave related) in
  ret RVoid.

(** [saveMany(related)] *)
Definition saveMany (this : t) (related : list ref) : M Returned :=
  let parent := parent this in
  let* target := trxOrClient this in
  let* _ :=
    managedTransaction target (fun trx =>
      setTrx (HasManyQueryClient.parent this) trx ;;
      rowSave parent ;;
      forEach (fun row =>
        hydrateForPersistance (relation this) (HasManyQueryClient.parent this)
          (ARow row) ;;
        setTrx row trx ;;
        rowSave row) related) in
  ret RVoid.

(** [create(values, options)] *)
Definition create (this : t) (values : ref)
    (options : option ModelAssignOptions) : M Returned :=
  let* target := trxOrClient this in
  managedTransaction target (fun trx =>
    setTrx (parent this) trx ;;
    rowSave (parent this) ;;
    let* valuesToPersist := objectAssign values in
    hydrateForPersistance (relation this) (parent this)
      (AnObject valuesToPersist) ;;
    let* persisted := readObject valuesToPersist in
    callRelated (RelatedCreate persisted (spreadOptions trx options))).

(** [createMany(values, options)] *)
Definition createMany (this : t) (values : list ref)
    (options : option ModelAssignOptions) : M Returned :=
  let parent := parent this in
  let* target := trxOrClient this in
  managedTransaction target (fun trx =>
    setTrx (HasManyQueryClient.parent this) trx ;;
    rowSave parent ;;
    let* valuesToPersist :=
      mapM (fun value =>
        let* valueToPersist := objectAssign value in
        hydrateForPersistance (relation this) (HasManyQueryClient.parent this)
          (AnObject valueToPersist) ;;
        ret valueToPersist) values in
    let* persisted := mapM readObject valuesToPersist in
    callRelated (RelatedCreateMany persisted (spreadOptions trx options))).

(** [firstOrCreate(search, savePayload, options)] *)
Definition firstOrCreate (this : t) (search : ref) (savePayload : option ref)
    (options : option ModelAssignOptions) : M Returned :=
  let* target := trxOrClient this in
  managedTransaction target (fun trx =>
    setTrx (parent this) trx ;;
    rowSave (parent this) ;;
    let* valuesToPersist := objectAssign search in
    hydrateForPersistance (relation this) (parent this)
      (AnObject valuesToPersist) ;;
    let* persisted := readObject valuesToPersist in
    let* payload :=
      match savePayload with
      | Some p => let* f := readObject p in ret (Some f)
      | None => ret None
      end in
    callRelated
      (RelatedFirstOrCreate persisted payload (spreadOptions trx options))).

(** [updateOrCreate(search, updatePayload, options)] *)
Definition updateOrCreate (this : t) (search updatePayload : ref)
    (options : option ModelAssignOptions) : M Returned :=
  let* target := trxOrClient this in
  managedTransaction target (fun trx =>
    setTrx (parent this) trx ;;
    rowSave (parent this) ;;
    let* valuesToPersist := objectAssign search in
    hydrateForPersistance (relation this) (parent this)
      (AnObject valuesToPersist) ;;
    let* persisted := readObject valuesToPersist in
    let* payload := readObject updatePayload in
    callRelated
      (RelatedUpdateOrCreate persisted payload (spreadOptions trx options))).

(** [fetchOrCreateMany(payload, predicate, options)] *)
Definition fetchOrCreateMany (this : t) (payload : list ref) (predicate : Any)
    (options : option ModelAssignOptions) : M Returned :=
  let* target := trxOrClient this in
  managedTransaction target (fun trx =>
    setTrx (parent this) trx ;;
    rowSave (parent this) ;;
    forEach (fun row =>
      hydrateForPersistance (relation this) (parent this) (AnObject row))
      payload ;;
    let predicate := normalizePredicate predicate in
    let* rows := mapM readObject payload in
    callRelated
      (RelatedFetchOrCreateMany
         (predicate ++ [VStr (foreignKey (relation this))]) rows
         (spreadOptions trx options))).

(** [updateOrCreateMany(payload, predicate, options)] *)
Definition updateOrCreateMany (this : t) (payload : list ref) (predicate : Any)
    (options : option ModelAssignOptions) : M Returned :=
  let* target := trxOrClient this in
  managedTransaction target (fun trx =>
    setTrx (parent this) trx ;;
    rowSave (parent this) ;;
    forEach (fun row =>
      hydrateForPersistance (relation this) (parent this) (AnObject row))
      payload ;;
    let predicate := normalizePredicate predicate in
    let* rows := mapM readObject payload in
    callRelated
      (RelatedUpdateOrCreateMany
         (predicate ++ [VStr (foreignKey (relation this))]) rows
         (spreadOptions trx options))).

(** The eight write operations with their arguments. *)
Inductive WriteOperation :=
| Save (related : ref)
| SaveMany (related : list ref)
| Create (values : ref) (options : option ModelAssignOptions)
| CreateMany (values : list ref) (options : option ModelAssignOptions)
| FirstOrCreate (search : ref) (savePayload : option ref)
    (options : option ModelAssignOptions)
| UpdateOrCreate (search updatePayload : ref)
    (options : option ModelAssignOptions)
| FetchOrCreateMany (payload : list ref) (predicate : Any)
    (options : option ModelAssignOptions)
| UpdateOrCreateMany (payload : list ref) (predicate : Any)
    (options : option ModelAssignOptions).

Definition run (this : t) (op : WriteOperation) : M Returned :=
  match op with
  | Save related => save this related
  | SaveMany related => saveMany this related
  | Create values options => create this values options
  | CreateMany values options => createMany this values options
  | FirstOrCreate search savePayload options =>
      firstOrCreate this search savePayload options
  | UpdateOrCreate search updatePayload options =>
      updateOrCreate this search updatePayload options
  | FetchOrCreateMany payload predicate options =>
      fetchOrCreateMany this payload predicate options
  | UpdateOrCreateMany payload predicate options =>
      updateOrCreateMany this payload predicate options
  end.

End Collaborators.

End HasManyQueryClient.

(** ** Reading traces *)

(** The store a persistence step started in has the parent inside the
    transaction [h]; the transaction steps themselves do not qualify. *)
Definition underTrx (parent : ref) (h : nat) (e : Event) : Prop :=
  match e with
  | RowSaved _ store | RelatedCalled _ store => trx (store !!! parent) = Some h
  | _ => False
  end.

(** The event is a persistence step: a row's own [save()] or a call of
    the related model. *)
Definition isPersistence (e : Event) : Prop :=
  match e with
  | RowSaved _ _ | RelatedCalled _ _ => True
  | _ => False
  end.

(** The event is a [commit] or a [rollback]. *)
Definition closesTransaction (e : Event) : Prop :=
  match e with
  | TransactionCommitted _ | TransactionRolledBack _ => True
  | _ => False
  end.

(** The rows whose own [save()] the events record, in order. *)
Definition savedRows (events : list Event) : list ref :=
  omap (fun e => match e with RowSaved row _ => Some row | _ => None end)
       events.

(** The event is the [save()] of [row], started in a store in which the
    row's foreign-key field holds the parent's local-key value, and
    that value is neither undefined nor null. *)
Definition hydratedSave (relation : HasMany) (parent : ref) (e : Event) : Prop :=
  match e with
  | RowSaved row store =>
      getField (attributes (store !!! row)) (foreignKey relation)
        = getField (attributes (store !!! parent)) (localKey relation)
      ∧ getValue (attributes (store !!! parent)) (localKey relation)
          relation "persist"
        = Ok (getField (attributes (store !!! parent)) (localKey relation))
  | _ => False
  end.

(** The predicate-field list a call hands to the related model, for
    the two calls that take one. *)
Definition predicateOf (call : RelatedCall) : option (list Value) :=
  match call with
  | RelatedFetchOrCreateMany predicate _ _
  | RelatedUpdateOrCreateMany predicate _ _ => Some predicate
  | _ => None
  end.

(** The parent is inside the transaction [h] and the database
    satisfies [D]. *)
Definition inTransaction (parent : ref) (h : nat) (D : Database.t -> Prop)
    (w : World) : Prop :=
  trx (rows w !!! parent) = Some h ∧ D (db w).

(** After a throw the database satisfies [D]. *)
Definition thrownKeeps (D : Database.t -> Prop) {A} (r : Result A)
    (w : World) : Prop :=
  ∀ e, r = Thrown e -> D (db w).

(** How an owned transaction ends: committed after a return, rolled
    back after a throw. *)
Definition closingEvent {A} (r : Result A) (h : nat) : Event :=
  match r with
  | Ok _ => TransactionCommitted h
  | Thrown _ => TransactionRolledBack h
  end.

(** The transaction a write operation finds open when it starts in
    [w]: the parent's [$trx], or else the client of the query client
    when that is a transaction client. *)
Definition existingTrx (parent : ref) (client : QueryClientContract)
    (w : World) : option nat :=
  match trx (rows w !!! parent) with
  | Some h => Some h
  | None =>
      match client with
      | TrxClient h => Some h
      | PlainClient _ => None
      end
  end.

(** The shape of a unit of work of the query client, from the world [w]
    it starts in to its outcome [r] and final world [w']: the handle it
    runs under is the transaction it finds open, if any, and a newly
    begun one otherwise; its persistence steps start with the parent's
    own [save()] and all see the parent inside that handle; begin and
    commit or rollback frame them only when the handle is new; and
    after a throw the database satisfies [D]. *)
Definition unitOfWork {A} (D : Database.t -> Prop) (parent : ref)
    (client : QueryClientContract) (w : World) (r : Result A) (w' : World)
    : Prop :=
  ∃ h store rest,
    Forall (underTrx parent h) (RowSaved parent store :: rest)
    ∧ (∀ e, r = Thrown e -> D (db w'))
    ∧ match existingTrx parent client w with
      | Some inherited =>
          h = inherited
          ∧ trace w' = trace w ++ RowSaved parent store :: rest
      | None =>
          h = Database.nextHandle (db w)
          ∧ trace w' = trace w ++ TransactionBegun client h
                         :: (RowSaved parent store :: rest)
                         ++ [closingEvent r h]
          ∧ Database.pending (db w') !! h = None
      end.

(** The storage refuses, with the failure [e], the row whose [save()]
    the event records, as that row is in the store the save started
    in. *)
Definition refusedSave (persist : Database.t -> LucidRow -> Result Fields)
    (e : Exception) (ev : Event) : Prop :=
  match ev with
  | RowSaved row store => ∃ d, persist d (store !!! row) = Thrown e
  | _ => False
  end.

(** Why a sequence of saves stops with the failure [e]: the storage
    refused the last of them, or the parent's local key, as the parent
    is in [store], does not resolve. *)
Definition stopsTheSaves (persist : Database.t -> LucidRow -> Result Fields)
    (relation : HasMany) (parent : ref) (e : Exception) (saves : list Event)
    (store : gmap ref LucidRow) : Prop :=
  (∃ ev, last saves = Some ev ∧ refusedSave persist e ev)
  ∨ getValue (attributes (store !!! parent)) (localKey relation) relation
             "persist" = Thrown e.

(** Writes through a transaction pile up under its handle, in order,
    and leave the committed data alone. *)
Definition writeAll (h : nat) (d : Database.t) (ws : list Database.Write)
    : Database.t :=
  foldl (fun d wr => Database.write (Some h) wr d) d ws.

(** Started in a world satisfying [I], the computation adds to the
    trace only events satisfying [P], and its outcome and final world
    satisfy [Q]. *)
Definition triple {A} (I : World -> Prop) (P : Event -> Prop) (m : M A)
    (Q : Result A -> World -> Prop) : Prop :=
  ∀ w, I w ->
    ∃ events, trace (m w).2 = trace w ++ events
      ∧ Forall P events
      ∧ Q (m w).1 (m w).2.

(** The computation keeps [I], whether it returns or throws. *)
Definition keeps {A} (I : World -> Prop) (P : Event -> Prop) (m : M A) : Prop :=
  triple I P m (fun _ w => I w).

(** ** Reading builders and units of work *)

(** The column a statement constrains. *)
Definition clauseColumn (c : Clause) : string :=
  match c with
  | Where column _ | WhereIn column _ => column
  end.

(** The rows a builder is bound to. *)
Definition boundRows (p : HasManyQueryBuilder.Parent) : list ref :=
  match p with
  | HasManyQueryBuilder.One model => [model]
  | HasManyQueryBuilder.Many models => models
  end.

(** The statement [applyConstraints] adds for the resolved key values
    [values] of the bound rows. *)
Definition relationClause (this : HasManyQueryBuilder.t) (values : list Value)
    : Clause :=
  match HasManyQueryBuilder.parent this with
  | HasManyQueryBuilder.One _ =>
      Where (foreignCastAsKey (HasManyQueryBuilder.relation this))
            (default VUndefined (head values))
  | HasManyQueryBuilder.Many _ =>
      WhereIn (foreignCastAsKey (HasManyQueryBuilder.relation this))
              (unique values)
  end.

(** The transaction the write operations of a query client find open. *)
Definition inheritedTrx (this : HasManyQueryClient.t) (w : World)
    : option nat :=
  existingTrx (HasManyQueryClient.parent this) (HasManyQueryClient.client this)
    w.

(** The handle a write operation started in [w] works under: the
    transaction it finds open, or the one [managedTransaction] begins. *)
Definition handleOf (this : HasManyQueryClient.t) (w : World) : nat :=
  match inheritedTrx this w with
  | Some h => h
  | None => Database.nextHandle (db w)
  end.

(** The world the callback of a write operation starts in. *)
Definition worldAtWork (this : HasManyQueryClient.t) (w : World) : World :=
  match inheritedTrx this w with
  | Some _ => w
  | None =>
      logged (withDb w (Database.begin (db w)).2)
        (TransactionBegun (HasManyQueryClient.client this)
           (Database.nextHandle (db w)))
  end.

(** The parent as its own [save()] finds it: marked with the handle. *)
Definition parentAtWork (this : HasManyQueryClient.t) (w : World) : LucidRow :=
  {| attributes := attributes (rows w !!! HasManyQueryClient.parent this);
     trx := Some (handleOf this w) |}.

(** The world once a row marked with [h] has been saved and the storage
    has answered with the fields [stored]. *)
Definition afterSave (row : ref) (h : nat) (stored : Fields) (w : World)
    : World :=
  {| rows := <[row := {| attributes := stored; trx := Some h |}]> (rows w);
     objects := objects w;
     db := Database.write (Some h)
             {| Database.writtenRow := row; Database.writtenFields := stored |}
             (db w);
     trace := trace w
       ++ [RowSaved row
             (<[row := {| attributes := attributes (rows w !!! row);
                          trx := Some h |}]> (rows w))] |}.

(** The world a write operation hands to its own steps once the
    parent's save has returned [stored]. *)
Definition afterParentSave (this : HasManyQueryClient.t) (stored : Fields)
    (w : World) : World :=
  afterSave (HasManyQueryClient.parent this) (handleOf this w) stored
    (worldAtWork this w).

(** How [managedTransaction] leaves the world its callback ended in:
    untouched under an inherited handle, committed or rolled back
    under one of its own. *)
Definition closed {A} (this : HasManyQueryClient.t) (w : World)
    (r : Result A) (inner : World) : World :=
  match inheritedTrx this w with
  | Some _ => inner
  | None =>
      let h := Database.nextHandle (db w) in
      match r with
      | Ok _ =>
          logged (withDb inner (Database.commit h (db inner)))
                 (TransactionCommitted h)
      | Thrown _ =>
          logged (withDb inner (Database.rollback h (db inner)))
                 (TransactionRolledBack h)
      end
  end.

(** The options a call hands to the related model. *)
Definition callOptions (call : RelatedCall) : AdapterOptions :=
  match call with
  | RelatedCreate _ o | RelatedCreateMany _ o | RelatedFirstOrCreate _ _ o
  | RelatedUpdateOrCreate _ _ o | RelatedFetchOrCreateMany _ _ o
  | RelatedUpdateOrCreateMany _ _ o => o
  end.

(** The options the caller passed to a write operation. *)
Definition optionsOf (op : HasManyQueryClient.WriteOperation)
    : option ModelAssignOptions :=
  match op with
  | HasManyQueryClient.Save _ | HasManyQueryClient.SaveMany _ => None
  | HasManyQueryClient.Create _ o | HasManyQueryClient.CreateMany _ o
  | HasManyQueryClient.FirstOrCreate _ _ o
  | HasManyQueryClient.UpdateOrCreate _ _ o
  | HasManyQueryClient.FetchOrCreateMany _ _ o
  | HasManyQueryClient.UpdateOrCreateMany _ _ o => o
  end.

(** The operation has a row or payload to hydrate. *)
Definition hydrates (op : HasManyQueryClient.WriteOperation) : bool :=
  match op with
  | HasManyQueryClient.SaveMany related => bool_decide (related ≠ [])
  | HasManyQueryClient.CreateMany values _ => bool_decide (values ≠ [])
  | HasManyQueryClient.FetchOrCreateMany payload _ _
  | HasManyQueryClient.UpdateOrCreateMany payload _ _ =>
      bool_decide (payload ≠ [])
  | _ => true
  end.

(** A call of the related model in the event carries the caller's
    options spread over the client [h]. *)
Definition forwards (h : nat) (options : option ModelAssignOptions)
    (e : Event) : Prop :=
  match e with
  | RelatedCalled call _ => callOptions call = spreadOptions h options
  | _ => True
  end.

(** The world once the storage has refused a row marked with [h]. *)
Definition afterRefusal (row : ref) (h : nat) (w : World) : World :=
  {| rows := <[row := {| attributes := attributes (rows w !!! row);
                         trx := Some h |}]> (rows w);
     objects := objects w;
     db := db w;
     trace := trace w
       ++ [RowSaved row
             (<[row := {| attributes := attributes (rows w !!! row);
                          trx := Some h |}]> (rows w))] |}.

(** The world with one more object, holding [fields], at the reference
    [Object.assign({}, ..)] gets. *)
Definition withCopy (fields : Fields) (w : World) : World :=
  withObjects w (<[fresh (dom (objects w)) := fields]> (objects w)).

(** What each write operation does inside its callback once the parent
    is marked and saved, and what it returns. *)
Definition stepsOf
    (persist : Database.t -> LucidRow -> Result Fields)
    (relatedModel : RelatedCall -> gmap ref LucidRow -> Database.t ->
                    Result Returned * gmap ref LucidRow * Database.t)
    (this : HasManyQueryClient.t) (op : HasManyQueryClient.WriteOperation)
    (trx : nat) : M Returned :=
  let relation := HasManyQueryClient.relation this in
  let parent := HasManyQueryClient.parent this in
  match op with
  | HasManyQueryClient.Save related =>
      (hydrateForPersistance relation parent (ARow related) ;;
       setTrx related trx ;;
       HasManyQueryClient.rowSave persist related) ;;
      ret RVoid
  | HasManyQueryClient.SaveMany related =>
      forEach (fun row =>
        hydrateForPersistance relation parent (ARow row) ;;
        setTrx row trx ;;
        HasManyQueryClient.rowSave persist row) related ;;
      ret RVoid
  | HasManyQueryClient.Create values options =>
      let* valuesToPersist := objectAssign values in
      hydrateForPersistance relation parent (AnObject valuesToPersist) ;;
      let* persisted := HasManyQueryClient.readObject valuesToPersist in
      HasManyQueryClient.callRelated relatedModel
        (RelatedCreate persisted (spreadOptions trx options))
  | HasManyQueryClient.CreateMany values options =>
      let* valuesToPersist :=
        mapM (fun value =>
          let* valueToPersist := objectAssign value in
          hydrateForPersistance relation parent (AnObject valueToPersist) ;;
          ret valueToPersist) values in
      let* persisted := mapM HasManyQueryClient.readObject valuesToPersist in
      HasManyQueryClient.callRelated relatedModel
        (RelatedCreateMany persisted (spreadOptions trx options))
  | HasManyQueryClient.FirstOrCreate search savePayload options =>
      let* valuesToPersist := objectAssign search in
      hydrateForPersistance relation parent (AnObject valuesToPersist) ;;
      let* persisted := HasManyQueryClient.readObject valuesToPersist in
      let* payload :=
        match savePayload with
        | Some p => let* f := HasManyQueryClient.readObject p in ret (Some f)
        | None => ret None
        end in
      HasManyQueryClient.callRelated relatedModel
        (RelatedFirstOrCreate persisted payload (spreadOptions trx options))
  | HasManyQueryClient.UpdateOrCreate search updatePayload options =>
      let* valuesToPersist := objectAssign search in
      hydrateForPersistance relation parent (AnObject valuesToPersist) ;;
      let* persisted := HasManyQueryClient.readObject valuesToPersist in
      let* payload := HasManyQueryClient.readObject updatePayload in
      HasManyQueryClient.callRelated relatedModel
        (RelatedUpdateOrCreate persisted payload (spreadOptions trx options))
  | HasManyQueryClient.FetchOrCreateMany payload predicate options =>
      forEach (fun row =>
        hydrateForPersistance relation parent (AnObject row)) payload ;;
      let* rows := mapM HasManyQueryClient.readObject payload in
      HasManyQueryClient.callRelated relatedModel
        (RelatedFetchOrCreateMany
           (HasManyQueryClient.normalizePredicate predicate
              ++ [VStr (foreignKey relation)])
           rows (spreadOptions trx options))
  | HasManyQueryClient.UpdateOrCreateMany payload predicate options =>
      forEach (fun row =>
        hydrateForPersistance relation parent (AnObject row)) payload ;;
      let* rows := mapM HasManyQueryClient.readObject payload in
      HasManyQueryClient.callRelated relatedModel
        (RelatedUpdateOrCreateMany
           (HasManyQueryClient.normalizePredicate predicate
              ++ [VStr (foreignKey relation)])
           rows (spreadOptions trx options))
  end.

(** ** A small concrete setting

    A storage layer and a related model to run the operations on: the
    storage refuses a row whose [title] is null and gives a row without
    an [id] a generated one; the related model creates one row per
    payload, one after the other and until the storage refuses one,
    through the transaction client of its options, or else through a
    transaction of its own. *)

Module Fixture.

Definition persist (d : Database.t) (row : LucidRow) : Result Fields :=
  if bool_decide (attributes row !! "title" = Some VNull)
  then Thrown (ConstraintViolationError "title")
  else
    match attributes row !! "id" with
    | Some _ => Ok (attributes row)
    | None =>
        Ok (<["id" := VNum (Z.of_nat (S (length (Database.committed d))))]>
              (attributes row))
    end.

Definition payloadsOf (call : RelatedCall) : list Fields :=
  match call with
  | RelatedCreate values _ => [values]
  | RelatedCreateMany values _ => values
  | RelatedFirstOrCreate search _ _ => [search]
  | RelatedUpdateOrCreate search updatePayload _ => [updatePayload ∪ search]
  | RelatedFetchOrCreateMany _ payload _ => payload
  | RelatedUpdateOrCreateMany _ payload _ => payload
  end.

Definition optionsOf (call : RelatedCall) : AdapterOptions :=
  match call with
  | RelatedCreate _ o | RelatedCreateMany _ o | RelatedFirstOrCreate _ _ o
  | RelatedUpdateOrCreate _ _ o | RelatedFetchOrCreateMany _ _ o
  | RelatedUpdateOrCreateMany _ _ o => o
  end.

Definition slotOf (c : option QueryClientContract) : option nat :=
  match c with
  | Some (TrxClient h) => Some h
  | _ => None
  end.

Fixpoint insertEach (h : nat) (payloads : list Fields)
    (rs : gmap ref LucidRow) (d : Database.t)
    : Result (list ref) * gmap ref LucidRow * Database.t :=
  match payloads with
  | [] => (Ok [], rs, d)
  | f :: rest =>
      match persist d {| attributes := f; trx := Some h |} with
      | Thrown e => (Thrown e, rs, d)
      | Ok stored =>
          let r := fresh (dom rs) in
          let '(created, rs', d') :=
            insertEach h rest
              (<[r := {| attributes := stored; trx := Some h |}]> rs)
              (Database.write (Some h)
                 {| Database.writtenRow := r;
                    Database.writtenFields := stored |} d) in
          (match created with
           | Ok created => Ok (r :: created)
           | Thrown e => Thrown e
           end, rs', d')
      end
  end.

Definition relatedModel (call : RelatedCall) (rs : gmap ref LucidRow)
    (d : Database.t) : Result Returned * gmap ref LucidRow * Database.t :=
  match slotOf (adapterClient (optionsOf call)) with
  | Some h =>
      let '(created, rs', d') := insertEach h (payloadsOf call) rs d in
      (match created with
       | Ok created => Ok (RRows created)
       | Thrown e => Thrown e
       end, rs', d')
  | None =>
      let '(h, opened) := Database.begin d in
      let '(created, rs', d') := insertEach h (payloadsOf call) rs opened in
      match created with
      | Ok created => (Ok (RRows created), rs', Database.commit h d')
      | Thrown e => (Thrown e, rs', Database.rollback h d')
      end
  end.

(** User [{id: 1}] has many posts through [authorId]. *)
Definition posts : HasMany :=
  {| relationName := "posts"; localKey := "id"; foreignKey := "authorId";
     foreignCastAsKey := "author_id"; onQueryHook := None |}.

Definition connection : QueryClientContract :=
  PlainClient {| connectionName := "primary" |}.

Definition user : ref := 1%positive.

Definition userPosts : HasManyQueryClient.t :=
  {| HasManyQueryClient.relation := posts;
     HasManyQueryClient.parent := user;
     HasManyQueryClient.client := connection |}.

Definition emptyDb : Database.t :=
  {| Database.committed := []; Database.pending := ∅; Database.nextHandle := 0 |}.

Definition titled (title : Value) : Fields := {[ "title" := title ]}.

(** A world with the user as row 1, posts "a", (untitled) and "c" as
    rows 2, 3, 4, and the same three as payload objects 1, 2, 3. *)
Definition world : World :=
  {| rows := {[ 1%positive := {| attributes := {[ "id" := VNum 1 ]}; trx := None |};
                2%positive := {| attributes := titled (VStr "a"); trx := None |};
                3%positive := {| attributes := titled VNull; trx := None |};
                4%positive := {| attributes := titled (VStr "c"); trx := None |} ]};
     objects := {[ 1%positive := titled (VStr "a");
                   2%positive := titled VNull;
                   3%positive := titled (VStr "c") ]};
     db := emptyDb;
     trace := [] |}.

(** The same world with the user inside the open transaction 7. *)
Definition worldInTransaction : World :=
  withRows world
    (<[1%positive := {| attributes := {[ "id" := VNum 1 ]}; trx := Some 7 |}]>
       (rows world)).

(** Four users with the ids 1, 2, 2 and 3, and an eager builder bound
    to them. *)
Definition fourUsers : gmap ref LucidRow :=
  {[ 1%positive := {| attributes := {[ "id" := VNum 1 ]}; trx := None |};
     2%positive := {| attributes := {[ "id" := VNum 2 ]}; trx := None |};
     3%positive := {| attributes := {[ "id" := VNum 2 ]}; trx := None |};
     4%positive := {| attributes := {[ "id" := VNum 3 ]}; trx := None |} ]}.

Definition eagerBuilder : HasManyQueryBuilder.t :=
  HasManyQueryBuilder.new (HasManyQueryClient.knexQuery connection) connection
    (HasManyQueryBuilder.Many [1; 2; 3; 4]%positive) posts true.

(** [createMany([a, b, c])] on the user, outside any transaction: the
    storage refuses [b]. *)
Definition failedCreateMany : Result Returned * World :=
  HasManyQueryClient.run persist relatedModel userPosts
    (HasManyQueryClient.CreateMany [1; 2; 3]%positive None) world.

(** The world with a user whose [title] is null, which the storage
    refuses. *)
Definition worldWithUntitledUser : World :=
  withRows world
    (<[1%positive := {| attributes := titled VNull; trx := None |}]>
       (rows world)).

(** The world with a user that has no field at all, and a storage that
    stores every row as it is, generating no key. *)
Definition worldWithAnonymousUser : World :=
  withRows world
    (<[1%positive := {| attributes := ∅; trx := None |}]> (rows world)).

Definition persistAsIs (d : Database.t) (row : LucidRow) : Result Fields :=
  Ok (attributes row).

(** A builder bound to post 2 of the world, which has no [id]. *)
Definition postBuilder : HasManyQueryBuilder.t :=
  HasManyQueryBuilder.new (HasManyQueryClient.knexQuery connection) connection
    (HasManyQueryBuilder.One 2%positive) posts false.

(** The posts of the user through a query client made on the open
    transaction 7, and the world with that transaction open; the user
    itself is in no transaction. *)
Definition userPostsOnTransaction : HasManyQueryClient.t :=
  {| HasManyQueryClient.relation := posts;
     HasManyQueryClient.parent := user;
     HasManyQueryClient.client := TrxClient 7 |}.

Definition worldWithOpenTransaction : World :=
  withDb world
    {| Database.committed := [];
       Database.pending := {[ 7 := [] ]};
       Database.nextHandle := 8 |}.

(** Options whose [client] property is there and holds [undefined]. *)
Definition undefinedClient : ModelAssignOptions :=
  {| optionsClient := Some None; optionsRest := ∅ |}.

End Fixture.

(** * Properties *)

(** ** utils: deduplication *)

Lemma elem_of_uniqueFrom (seen values : list Value) (v : Value) :
  v ∈ uniqueFrom seen values ↔ v ∈ values ∧ v ∉ seen.
Proof.
  revert seen. induction values as [|x rest IH]; intros seen; simpl.
  - split; [intros H; inversion H | intros [H _]; inversion H].
  - case_bool_decide as Hx.
    + rewrite IH, elem_of_cons. split; [tauto|].
      intros [[->|Hin] Hout]; [contradiction | tauto].
    + rewrite !elem_of_cons, IH, elem_of_cons. split.
      * intros [->|[Hin Hout]]; [tauto|]. split; [tauto|]. tauto.
      * intros [[->|Hin] Hout]; [tauto|].
        destruct (decide (v = x)) as [->|Hne]; [tauto|]. right. tauto.
Qed.

Lemma NoDup_uniqueFrom (seen values : list Value) :
  NoDup (uniqueFrom seen values).
Proof.
  revert seen. induction values as [|x rest IH]; intros seen; simpl.
  - constructor.
  - case_bool_decide; [apply IH|].
    constructor; [|apply IH].
    rewrite elem_of_uniqueFrom, elem_of_cons. tauto.
Qed.

Lemma elem_of_unique (values : list Value) (v : Value) :
  v ∈ unique values ↔ v ∈ values.
Proof.
  unfold unique. rewrite elem_of_uniqueFrom. split; [tauto|].
  intros H. split; [done|]. apply not_elem_of_nil.
Qed.

Lemma NoDup_unique (values : list Value) : NoDup (unique values).
Proof. apply NoDup_uniqueFrom. Qed.

(** ** HasManyQueryBuilder.applyConstraints *)

Section ApplyConstraints.

Import HasManyQueryBuilder.

Variable queryAction : KnexBuilder -> string.

(** C1. On a builder whose constraints have not been applied yet and
    whose parent's local keys resolve, [applyConstraints()] returns
    normally, having added exactly one predicate after those already
    there: for a single row, equality of the cast foreign-key column
    with the parent's resolved local-key value; for a sequence of rows,
    membership of that column in a duplicate-free list holding exactly
    the parents' resolved local-key values, which for the values
    1, 2, 2, 3 is the three values 1, 2, 3. *)
Theorem applyConstraints_adds_the_relation_predicate
    (rows : gmap ref LucidRow) (this : t) (values : list Value) :
  appliedConstraints (base this) = false ->
  resolvedKeys queryAction rows this = Ok values ->
  ∃ clause this',
    applyConstraints queryAction rows this = (Ok tt, this')
    ∧ predicates this' = predicates this ++ [clause]
    ∧ appliedConstraints (base this') = true
    ∧ match parent this with
      | One _ =>
          ∃ value, values = [value]
            ∧ clause = Where (foreignCastAsKey (relation this)) value
      | Many _ =>
          ∃ keys, clause = WhereIn (foreignCastAsKey (relation this)) keys
            ∧ NoDup keys
            ∧ (∀ v, v ∈ keys ↔ v ∈ values)
            ∧ (values = [VNum 1; VNum 2; VNum 2; VNum 3] ->
               keys ≡ₚ [VNum 1; VNum 2; VNum 3])
      end.
Proof.
  intros Hfresh Hkeys. unfold applyConstraints, resolvedKeys in *.
  rewrite Hfresh. destruct this as [b c p r e]; simpl in *.
  destruct p as [model|models]; simpl in *.
  - destruct (getValue _ _ _ _) as [value|err]; [|discriminate].
    injection Hkeys as <-.
    eexists _, _. split; [reflexivity|]. repeat split. eauto.
  - rewrite Hkeys.
    eexists _, _. split; [reflexivity|]. repeat split.
    exists (unique values). split; [reflexivity|].
    split; [apply NoDup_unique|]. split; [apply elem_of_unique|].
    intros ->. reflexivity.
Qed.

(** C2. Calling [applyConstraints()] a second time, whatever the rows
    hold by then, returns normally and leaves the builder exactly as
    the first call left it: the flag it tests is set by the first call
    before anything else is done, so the predicates are those of one
    call. *)
Theorem applyConstraints_twice_is_once
    (rows rows' : gmap ref LucidRow) (this : t) :
  let once := (applyConstraints queryAction rows this).2 in
  appliedConstraints (base once) = true
  ∧ applyConstraints queryAction rows' once = (Ok tt, once).
Proof.
  assert (Hflag :
    appliedConstraints (base (applyConstraints queryAction rows this).2) = true).
  { unfold applyConstraints.
    destruct (appliedConstraints (base this)) eqn:Hflag; [exact Hflag|].
    destruct this as [b c p r e]; simpl.
    destruct p; simpl.
    - destruct (getValue _ _ _ _); reflexivity.
    - destruct (mapResult _ _); reflexivity. }
  simpl. split; [exact Hflag|].
  unfold applyConstraints at 1. rewrite Hflag. reflexivity.
Qed.

(** When a parent's local key is undefined or null, the call throws the
    missing-key error with the flag already set and no predicate added;
    by the guard, a later call adds none either. *)
Lemma applyConstraints_without_key
    (rows : gmap ref LucidRow) (this : t) (e : Exception) :
  appliedConstraints (base this) = false ->
  resolvedKeys queryAction rows this = Thrown e ->
  applyConstraints queryAction rows this = (Thrown e, markApplied this).
Proof.
  intros Hfresh Hkeys. unfold applyConstraints, resolvedKeys in *.
  rewrite Hfresh. destruct this as [b c p r i]; simpl in *.
  destruct p as [model|models]; simpl in *.
  - destruct (getValue _ _ _ _) as [value|err]; [discriminate|].
    by injection Hkeys as ->.
  - by rewrite Hkeys.
Qed.

End ApplyConstraints.

(** C1, at a builder bound to four parents with local keys 1, 2, 2, 3. *)
Lemma applyConstraints_adds_the_relation_predicate_witness :
  ∃ clause this',
    HasManyQueryBuilder.applyConstraints method Fixture.fourUsers
      Fixture.eagerBuilder = (Ok tt, this')
    ∧ HasManyQueryBuilder.predicates this' = [clause]
    ∧ ∃ keys, clause = WhereIn "author_id" keys
        ∧ keys ≡ₚ [VNum 1; VNum 2; VNum 3].
Proof.
  destruct (applyConstraints_adds_the_relation_predicate method
              Fixture.fourUsers Fixture.eagerBuilder
              [VNum 1; VNum 2; VNum 2; VNum 3])
    as (clause & this' & Hrun & Hadd & _ & keys & Hclause & _ & _ & Hset).
  - reflexivity.
  - vm_compute. reflexivity.
  - exists clause, this'. split; [exact Hrun|]. split; [exact Hadd|].
    exists keys. split; [exact Hclause|]. apply Hset. reflexivity.
Defined.

(** ** Reasoning about computations *)

Section Triples.

Context {A B : Type}.

Lemma triple_bind (I : World -> Prop) (P : Event -> Prop) (m : M A)
    (k : A -> M B) (J : A -> World -> Prop) (Q : Result B -> World -> Prop) :
  triple I P m (fun r w =>
    match r with Ok a => J a w | Thrown e => Q (Thrown e) w end) ->
  (∀ a, triple (J a) P (k a) Q) ->
  triple I P (bind m k) Q.
Proof.
  intros Hm Hk w Hw. unfold bind.
  destruct (Hm w Hw) as (ev1 & Htr1 & Hev1 & Hq1).
  destruct (m w) as [[a|e] w1]; simpl in *.
  - destruct (Hk a w1 Hq1) as (ev2 & Htr2 & Hev2 & Hq2).
    exists (ev1 ++ ev2). rewrite Htr2, Htr1, app_assoc.
    split; [done|]. split; [by apply Forall_app|done].
  - exists ev1. done.
Qed.

Lemma triple_weaken (I I' : World -> Prop) (P P' : Event -> Prop) (m : M A)
    (Q Q' : Result A -> World -> Prop) :
  (∀ w, I' w -> I w) ->
  (∀ e, P e -> P' e) ->
  (∀ r w, Q r w -> Q' r w) ->
  triple I P m Q -> triple I' P' m Q'.
Proof.
  intros HI HP HQ Hm w Hw.
  destruct (Hm w (HI w Hw)) as (ev & Htr & Hev & Hq).
  exists ev. split; [done|]. split; [|by apply HQ].
  eapply Forall_impl; eauto.
Qed.

Lemma keeps_bind (I : World -> Prop) (P : Event -> Prop) (m : M A)
    (k : A -> M B) :
  keeps I P m -> (∀ a, keeps I P (k a)) -> keeps I P (bind m k).
Proof.
  intros Hm Hk. apply triple_bind with (J := fun _ w => I w); [|exact Hk].
  intros w Hw. destruct (Hm w Hw) as (ev & Htr & Hev & Hq).
  exists ev. split; [done|]. split; [done|]. by destruct ((m w).1).
Qed.

(** A step that keeps [I], followed by one that ends a computation. *)
Lemma keeps_then (I : World -> Prop) (P : Event -> Prop) (m : M A)
    (k : A -> M B) (Q : Result B -> World -> Prop) :
  keeps I P m ->
  (∀ e w, I w -> Q (Thrown e) w) ->
  (∀ a, triple I P (k a) Q) ->
  triple I P (bind m k) Q.
Proof.
  intros Hm Hthrown Hk.
  apply triple_bind with (J := fun _ w => I w); [|exact Hk].
  intros w Hw. destruct (Hm w Hw) as (ev & Htr & Hev & Hq).
  exists ev. split; [done|]. split; [done|].
  destruct ((m w).1); [done|by apply Hthrown].
Qed.

End Triples.

Lemma keeps_ret {A} (I : World -> Prop) (P : Event -> Prop) (a : A) :
  keeps I P (ret a).
Proof. intros w Hw. exists []. simpl. rewrite app_nil_r. done. Qed.

Lemma keeps_forEach {A} (I : World -> Prop) (P : Event -> Prop)
    (body : A -> M unit) (xs : list A) :
  (∀ x, keeps I P (body x)) -> keeps I P (forEach body xs).
Proof.
  intros Hbody. induction xs as [|x rest IH]; simpl.
  - apply keeps_ret.
  - apply keeps_bind; [apply Hbody|]. intros _. exact IH.
Qed.

Lemma keeps_mapM {A B} (I : World -> Prop) (P : Event -> Prop)
    (f : A -> M B) (xs : list A) :
  (∀ x, keeps I P (f x)) -> keeps I P (mapM f xs).
Proof.
  intros Hf. induction xs as [|x rest IH]; simpl.
  - apply keeps_ret.
  - apply keeps_bind; [apply Hf|]. intros y.
    apply keeps_bind; [exact IH|]. intros ys. apply keeps_ret.
Qed.

(** A step that leaves the trace alone and maps worlds satisfying [I]
    to worlds satisfying [I]. *)
Lemma keeps_silent {A} (I : World -> Prop) (P : Event -> Prop) (m : M A) :
  (∀ w, trace (m w).2 = trace w) ->
  (∀ w, I w -> I (m w).2) ->
  keeps I P m.
Proof.
  intros Htrace Hinv w Hw. exists []. rewrite app_nil_r.
  split; [apply Htrace|]. split; [constructor|]. by apply Hinv.
Qed.

(** ** [managedTransaction(this.parent.$trx || this.client, callback)] *)

Lemma bind_assoc {A B C} (m : M A) (k : A -> M B) (k' : B -> M C) (w : World) :
  bind (bind m k) k' w = bind m (fun a => bind (k a) k') w.
Proof. unfold bind. by destruct (m w) as [[a|e] w1]. Qed.

Section Managed.

Import HasManyQueryClient.

Variable this : t.

(** With a transaction open on the parent or as the client, the
    callback runs in it and nothing is added around it. *)
Lemma managed_inherited {A} (callback : nat -> M A) (w : World) (h : nat) :
  existingTrx (parent this) (client this) w = Some h ->
  (let* target := trxOrClient this in managedTransaction target callback) w
  = callback h w.
Proof.
  unfold existingTrx, bind, trxOrClient.
  destruct (trx (rows w !!! parent this)) as [h'|]; [by intros [= ->]|].
  by destruct (client this) as [c|h']; [|intros [= ->]].
Qed.

(** With none, the callback runs in a transaction begun on the client
    and committed or rolled back after it. *)
Lemma managed_owned {A} (callback : nat -> M A) (w : World) :
  existingTrx (parent this) (client this) w = None ->
  (let* target := trxOrClient this in managedTransaction target callback) w
  = match callback (Database.nextHandle (db w))
            (logged (withDb w (Database.begin (db w)).2)
                    (TransactionBegun (client this)
                       (Database.nextHandle (db w)))) with
    | (Ok response, w1) =>
        (Ok response,
         logged (withDb w1 (Database.commit (Database.nextHandle (db w))
                              (db w1)))
                (TransactionCommitted (Database.nextHandle (db w))))
    | (Thrown e, w1) =>
        (Thrown e,
         logged (withDb w1 (Database.rollback (Database.nextHandle (db w))
                              (db w1)))
                (TransactionRolledBack (Database.nextHandle (db w))))
    end.
Proof.
  unfold existingTrx, bind, trxOrClient.
  destruct (trx (rows w !!! parent this)) as [h'|]; [done|].
  by destruct (client this) as [c|h'].
Qed.

(** The same two, with a value returned after the transaction. *)
Lemma managed_inherited_ret {A B} (callback : nat -> M A) (b : B) (w : World)
    (h : nat) :
  existingTrx (parent this) (client this) w = Some h ->
  (let* target := trxOrClient this in
   let* _ := managedTransaction target callback in ret b) w
  = match callback h w with
    | (Ok _, w1) => (Ok b, w1)
    | (Thrown e, w1) => (Thrown e, w1)
    end.
Proof.
  intros Hslot. rewrite <- bind_assoc. unfold bind at 1.
  by rewrite (managed_inherited callback w h Hslot).
Qed.

Lemma managed_owned_ret {A B} (callback : nat -> M A) (b : B) (w : World) :
  existingTrx (parent this) (client this) w = None ->
  (let* target := trxOrClient this in
   let* _ := managedTransaction target callback in ret b) w
  = match callback (Database.nextHandle (db w))
            (logged (withDb w (Database.begin (db w)).2)
                    (TransactionBegun (client this)
                       (Database.nextHandle (db w)))) with
    | (Ok _, w1) =>
        (Ok b,
         logged (withDb w1 (Database.commit (Database.nextHandle (db w))
                              (db w1)))
                (TransactionCommitted (Database.nextHandle (db w))))
    | (Thrown e, w1) =>
        (Thrown e,
         logged (withDb w1 (Database.rollback (Database.nextHandle (db w))
                              (db w1)))
                (TransactionRolledBack (Database.nextHandle (db w))))
    end.
Proof.
  intros Hslot. rewrite <- bind_assoc. unfold bind at 1.
  rewrite (managed_owned callback w Hslot).
  by destruct (callback _ _) as [[a|e] w1].
Qed.

End Managed.

(** ** The unit of work of the query client *)

Section UnitOfWork.

Import HasManyQueryClient.

Variable persist : Database.t -> LucidRow -> Result Fields.
Variable relatedModel :
  RelatedCall -> gmap ref LucidRow -> Database.t ->
  Result Returned * gmap ref LucidRow * Database.t.

(** A property of the database that beginning a transaction, writing
    through one and rolling one back keep, and that a throwing call of
    the related model keeps. *)
Variable D : Database.t -> Prop.
Hypothesis D_begin : ∀ d, D d -> D (Database.begin d).2.
Hypothesis D_write : ∀ d wr h, D d -> D (Database.write (Some h) wr d).
Hypothesis D_rollback : ∀ d h, D d -> D (Database.rollback h d).
Hypothesis D_related : ∀ call rs d e rs' d',
  D d -> relatedModel call rs d = (Thrown e, rs', d') -> D d'.

Variable this : t.

Section Steps.

Variable h : nat.

Local Abbreviation I := (inTransaction (parent this) h D) (only parsing).
Local Abbreviation P := (underTrx (parent this) h) (only parsing).
Local Abbreviation afterThrow := (thrownKeeps D) (only parsing).

Lemma setTrx_keeps (row : ref) : keeps I P (setTrx row h).
Proof.
  apply keeps_silent; [done|]. intros w [Htrx Hd]. split; [|done]. simpl.
  destruct (decide (row = parent this)) as [->|Hne].
  - by rewrite lookup_total_insert_eq.
  - by rewrite lookup_total_insert_ne.
Qed.

Lemma rowSave_in_transaction (row : ref) :
  triple (fun w => I w ∧ is_Some (trx (rows w !!! row))) P
    (rowSave persist row) (fun _ w => I w).
Proof.
  intros w [[Htrx Hd] [h' Hrow]]. exists [RowSaved row (rows w)].
  unfold rowSave. simpl.
  destruct (persist (db w) (rows w !!! row)) as [stored|e]; simpl.
  - split; [done|]. split; [by repeat constructor|].
    split; simpl.
    + destruct (decide (row = parent this)) as [->|Hne].
      * by rewrite lookup_total_insert_eq.
      * by rewrite lookup_total_insert_ne.
    + rewrite Hrow. by apply D_write.
  - split; [done|]. split; [by repeat constructor|]. done.
Qed.

Lemma save_under_keeps (row : ref) :
  keeps I P (setTrx row h ;; rowSave persist row).
Proof.
  apply triple_bind
    with (J := fun _ w => I w ∧ is_Some (trx (rows w !!! row))).
  - intros w Hw. exists []. rewrite app_nil_r. split; [done|].
    split; [constructor|]. simpl. split.
    + destruct (setTrx_keeps row w Hw) as (ev & _ & _ & Hinv). exact Hinv.
    + rewrite lookup_total_insert_eq. simpl. eauto.
  - intros _. apply rowSave_in_transaction.
Qed.

Lemma hydrate_keeps (target : Persistable) :
  keeps I P (hydrateForPersistance (relation this) (parent this) target).
Proof.
  apply keeps_silent.
  - intros w. unfold hydrateForPersistance.
    destruct (getValue _ _ _ _); [|done]. by destruct target.
  - intros w [Htrx Hd]. unfold hydrateForPersistance.
    destruct (getValue _ _ _ _); [|done].
    destruct target as [row|object]; simpl; [|done].
    split; [|done]. simpl.
    destruct (decide (row = parent this)) as [->|Hne].
    + by rewrite lookup_total_insert_eq.
    + by rewrite lookup_total_insert_ne.
Qed.

Lemma objectAssign_keeps (source : ref) : keeps I P (objectAssign source).
Proof. by apply keeps_silent. Qed.

Lemma readObject_keeps (object : ref) : keeps I P (readObject object).
Proof. by apply keeps_silent. Qed.

Lemma callRelated_ends (call : RelatedCall) :
  triple I P (callRelated relatedModel call) afterThrow.
Proof.
  intros w [Htrx Hd]. exists [RelatedCalled call (rows w)].
  unfold callRelated. simpl.
  destruct (relatedModel call (rows w) (db w)) as [[r rs] d] eqn:Hcall. simpl.
  split; [done|]. split; [by repeat constructor|].
  intros e ->. eapply D_related; eauto.
Qed.

Lemma keeps_ends {A} (m : M A) : keeps I P m -> triple I P m afterThrow.
Proof.
  apply triple_weaken; eauto. intros r w [_ Hd] e _. exact Hd.
Qed.

Lemma thrown_ends {A} (e : Exception) (w : World) :
  I w -> @thrownKeeps D A (Thrown e) w.
Proof. intros [_ Hd] e' _. exact Hd. Qed.

(** The persistence steps of the eight operations, after the parent's
    own save. *)

Lemma save_steps (related : ref) :
  keeps I P
    (hydrateForPersistance (relation this) (parent this) (ARow related) ;;
     setTrx related h ;;
     rowSave persist related).
Proof.
  apply keeps_bind; [apply hydrate_keeps|]. intros _. apply save_under_keeps.
Qed.

Lemma saveMany_steps (related : list ref) :
  keeps I P
    (forEach (fun row =>
       hydrateForPersistance (relation this) (parent this) (ARow row) ;;
       setTrx row h ;;
       rowSave persist row) related).
Proof. apply keeps_forEach. intros row. apply save_steps. Qed.

Lemma copy_steps (source : ref) (k : Fields -> M Returned) :
  (∀ f, triple I P (k f) afterThrow) ->
  triple I P
    (let* valuesToPersist := objectAssign source in
     hydrateForPersistance (relation this) (parent this)
       (AnObject valuesToPersist) ;;
     let* persisted := readObject valuesToPersist in
     k persisted) afterThrow.
Proof.
  intros Hk.
  eapply keeps_then; [apply objectAssign_keeps|apply @thrown_ends|].
  intros copy.
  eapply keeps_then; [apply hydrate_keeps|apply @thrown_ends|]. intros _.
  eapply keeps_then; [apply readObject_keeps|apply @thrown_ends|]. exact Hk.
Qed.

Lemma create_steps (values : ref) (options : option ModelAssignOptions) :
  triple I P
    (let* valuesToPersist := objectAssign values in
     hydrateForPersistance (relation this) (parent this)
       (AnObject valuesToPersist) ;;
     let* persisted := readObject valuesToPersist in
     callRelated relatedModel
       (RelatedCreate persisted (spreadOptions h options))) afterThrow.
Proof. apply copy_steps. intros f. apply callRelated_ends. Qed.

Lemma createMany_steps (values : list ref)
    (options : option ModelAssignOptions) :
  triple I P
    (let* valuesToPersist :=
       mapM (fun value =>
         let* valueToPersist := objectAssign value in
         hydrateForPersistance (relation this) (parent this)
           (AnObject valueToPersist) ;;
         ret valueToPersist) values in
     let* persisted := mapM readObject valuesToPersist in
     callRelated relatedModel
       (RelatedCreateMany persisted (spreadOptions h options))) afterThrow.
Proof.
  eapply keeps_then; [|apply @thrown_ends|].
  - apply keeps_mapM. intros value.
    apply keeps_bind; [apply objectAssign_keeps|]. intros copy.
    apply keeps_bind; [apply hydrate_keeps|]. intros _. apply keeps_ret.
  - intros copies.
    eapply keeps_then; [|apply @thrown_ends|].
    + apply keeps_mapM. apply readObject_keeps.
    + intros fs. apply callRelated_ends.
Qed.

Lemma firstOrCreate_steps (search : ref) (savePayload : option ref)
    (options : option ModelAssignOptions) :
  triple I P
    (let* valuesToPersist := objectAssign search in
     hydrateForPersistance (relation this) (parent this)
       (AnObject valuesToPersist) ;;
     let* persisted := readObject valuesToPersist in
     let* payload :=
       match savePayload with
       | Some p => let* f := readObject p in ret (Some f)
       | None => ret None
       end in
     callRelated relatedModel
       (RelatedFirstOrCreate persisted payload (spreadOptions h options)))
    afterThrow.
Proof.
  apply copy_steps. intros f.
  eapply keeps_then; [|apply @thrown_ends|].
  - destruct savePayload as [p|]; [|apply keeps_ret].
    apply keeps_bind; [apply readObject_keeps|]. intros g. apply keeps_ret.
  - intros payload. apply callRelated_ends.
Qed.

Lemma updateOrCreate_steps (search updatePayload : ref)
    (options : option ModelAssignOptions) :
  triple I P
    (let* valuesToPersist := objectAssign search in
     hydrateForPersistance (relation this) (parent this)
       (AnObject valuesToPersist) ;;
     let* persisted := readObject valuesToPersist in
     let* payload := readObject updatePayload in
     callRelated relatedModel
       (RelatedUpdateOrCreate persisted payload (spreadOptions h options)))
    afterThrow.
Proof.
  apply copy_steps. intros f.
  eapply keeps_then; [apply readObject_keeps|apply @thrown_ends|].
  intros payload. apply callRelated_ends.
Qed.

Lemma batch_steps (payload : list ref) (k : list Fields -> M Returned) :
  (∀ fs, triple I P (k fs) afterThrow) ->
  triple I P
    (forEach (fun row =>
       hydrateForPersistance (relation this) (parent this) (AnObject row))
       payload ;;
     let* rows := mapM readObject payload in
     k rows) afterThrow.
Proof.
  intros Hk.
  eapply keeps_then; [|apply @thrown_ends|].
  - apply keeps_forEach. intros row. apply hydrate_keeps.
  - intros _. eapply keeps_then; [|apply @thrown_ends|exact Hk].
    apply keeps_mapM. apply readObject_keeps.
Qed.

End Steps.

Lemma callback_shape {A} (steps : nat -> M A) (h : nat) (w : World) :
  (∀ h, triple (inTransaction (parent this) h D) (underTrx (parent this) h)
          (steps h) (thrownKeeps D)) ->
  D (db w) ->
  let m := setTrx (parent this) h ;; rowSave persist (parent this) ;; steps h in
  ∃ store rest,
    trace (m w).2 = trace w ++ RowSaved (parent this) store :: rest
    ∧ Forall (underTrx (parent this) h) (RowSaved (parent this) store :: rest)
    ∧ thrownKeeps D (m w).1 (m w).2.
Proof.
  intros Hsteps Hd m. subst m.
  set (w1 := (setTrx (parent this) h w).2).
  assert (Hmarked : inTransaction (parent this) h D w1).
  { split; [|done]. subst w1; simpl. by rewrite lookup_total_insert_eq. }
  assert (Hsaved : underTrx (parent this) h (RowSaved (parent this) (rows w1))).
  { apply Hmarked. }
  change ((setTrx (parent this) h;; rowSave persist (parent this);; steps h) w)
    with ((rowSave persist (parent this);; steps h) w1).
  assert (Htrace : trace w1 = trace w) by reflexivity.
  destruct (rowSave_in_transaction h (parent this) w1) as (ev & Htr & Hev & Hinv).
  { split; [done|]. destruct Hmarked as [-> _]. eauto. }
  assert (Hev1 : ev = [RowSaved (parent this) (rows w1)]).
  { unfold rowSave in Htr. cbn -[w1] in Htr.
    destruct (persist _ _); cbn -[w1] in Htr; by apply app_inv_head in Htr. }
  subst ev.
  assert (Hrun : (rowSave persist (parent this);; steps h) w1
    = match rowSave persist (parent this) w1 with
      | (Ok _, w2) => steps h w2
      | (Thrown e, w2) => (Thrown e, w2)
      end) by reflexivity.
  rewrite Hrun. clear Hrun.
  destruct (rowSave persist (parent this) w1) as [[[]|e] w2].
  - destruct (Hsteps h w2 Hinv) as (rest & Htr2 & Hrest & Hq).
    exists (rows w1), rest. cbn -[w1] in Htr. rewrite Htr2, Htr, Htrace.
    rewrite <- app_assoc. split; [reflexivity|]. split; [|done].
    by constructor.
  - exists (rows w1), []. cbn -[w1] in *. rewrite Htr, Htrace.
    split; [done|]. split; [by constructor|]. intros e' _. by destruct Hinv.
Qed.

(** The shape of [managedTransaction(this.parent.$trx || this.client, ..)]
    around such a callback. *)
Lemma transaction_shape {A} (steps : nat -> M A) (w : World) :
  (∀ h, triple (inTransaction (parent this) h D) (underTrx (parent this) h)
          (steps h) (thrownKeeps D)) ->
  D (db w) ->
  let m :=
    let* target := trxOrClient this in
    managedTransaction target (fun trx =>
      setTrx (parent this) trx ;; rowSave persist (parent this) ;; steps trx) in
  unitOfWork D (parent this) (client this) w (m w).1 (m w).2.
Proof.
  intros Hsteps Hd m. subst m. unfold unitOfWork.
  set (callback := fun trx =>
    setTrx (parent this) trx ;; rowSave persist (parent this) ;; steps trx).
  destruct (existingTrx (parent this) (client this) w)
    as [inherited|] eqn:Hslot.
  - assert (Hrun :
      (let* target := trxOrClient this in managedTransaction target callback) w
      = callback inherited w) by (by apply managed_inherited).
    rewrite Hrun.
    destruct (callback_shape steps inherited w Hsteps Hd)
      as (store & rest & Htr & Hev & Hq).
    exists inherited, store, rest. done.
  - set (h := Database.nextHandle (db w)).
    set (w0 := logged (withDb w (Database.begin (db w)).2)
                      (TransactionBegun (client this) h)).
    assert (Hrun :
      (let* target := trxOrClient this in managedTransaction target callback) w
      = match callback h w0 with
        | (Ok response, w1) =>
            (Ok response,
             logged (withDb w1 (Database.commit h (db w1)))
                    (TransactionCommitted h))
        | (Thrown e, w1) =>
            (Thrown e,
             logged (withDb w1 (Database.rollback h (db w1)))
                    (TransactionRolledBack h))
        end) by (by apply managed_owned).
    rewrite Hrun.
    destruct (callback_shape steps h w0 Hsteps)
      as (store & rest & Htr & Hev & Hq).
    { apply (D_begin _ Hd). }
    fold (callback h) in Htr, Hq.
    destruct (callback h w0) as [[a|e] w1]; cbn -[w0] in *.
    + exists h, store, rest. split; [done|]. split; [done|].
      split; [done|]. split; [|apply lookup_delete_eq].
      rewrite Htr. subst w0. cbn. by rewrite <- !app_assoc.
    + exists h, store, rest. split; [done|].
      split; [intros e' _; apply D_rollback; by eapply Hq|].
      split; [done|]. split; [|apply lookup_delete_eq].
      rewrite Htr. subst w0. cbn. by rewrite <- !app_assoc.
Qed.

(** Returning a fixed value after the unit of work changes neither its
    world nor whether it threw. *)
Lemma unitOfWork_then_ret {A B} (m : M A) (b : B) (w : World) :
  unitOfWork D (parent this) (client this) w (m w).1 (m w).2 ->
  unitOfWork D (parent this) (client this) w
    ((m ;; ret b) w).1 ((m ;; ret b) w).2.
Proof.
  unfold bind. destruct (m w) as [[a|e] w1]; simpl;
    intros (h & store & rest & Hev & Hq & Hshape);
    exists h, store, rest; (split; [done|]); (split; [|exact Hshape]).
  - done.
  - intros e' _. by apply (Hq e).
Qed.

(** Every write operation is such a unit of work. *)
Lemma run_unitOfWork (op : WriteOperation) (w : World) :
  D (db w) ->
  unitOfWork D (parent this) (client this) w
    (run persist relatedModel this op w).1
    (run persist relatedModel this op w).2.
Proof.
  intros Hd. destruct op; simpl.
  - apply (unitOfWork_then_ret
             (let* target := trxOrClient this in managedTransaction target _)).
    apply (transaction_shape (fun trx => _ ;; _ ;; _)); [|done].
    intros h. apply keeps_ends, save_steps.
  - apply (unitOfWork_then_ret
             (let* target := trxOrClient this in managedTransaction target _)).
    apply (transaction_shape (fun trx => forEach _ _)); [|done].
    intros h. apply keeps_ends, saveMany_steps.
  - apply (transaction_shape (fun trx => let* _ := objectAssign _ in _)); [|done].
    intros h. apply create_steps.
  - apply (transaction_shape (fun trx => let* _ := mapM _ _ in _)); [|done].
    intros h. apply createMany_steps.
  - apply (transaction_shape (fun trx => let* _ := objectAssign _ in _)); [|done].
    intros h. apply firstOrCreate_steps.
  - apply (transaction_shape (fun trx => let* _ := objectAssign _ in _)); [|done].
    intros h. apply updateOrCreate_steps.
  - apply (transaction_shape (fun trx => forEach _ _ ;; _)); [|done].
    intros h. apply batch_steps. intros fs. apply callRelated_ends.
  - apply (transaction_shape (fun trx => forEach _ _ ;; _)); [|done].
    intros h. apply batch_steps. intros fs. apply callRelated_ends.
Qed.

End UnitOfWork.

(** ** Transactions: ownership and rollback *)

Lemma underTrx_isPersistence (parent : ref) (h : nat) (e : Event) :
  underTrx parent h e -> isPersistence e.
Proof. by destruct e. Qed.

Lemma Fixture_insertEach_committed (h : nat) (payloads : list Fields)
    (rs : gmap ref LucidRow) (d : Database.t) :
  Database.committed (Fixture.insertEach h payloads rs d).2
  = Database.committed d.
Proof.
  revert rs d. induction payloads as [|f rest IH]; intros rs d; [done|].
  simpl. destruct (Fixture.persist _ _) as [stored|e]; [|done].
  specialize (IH (<[fresh (dom rs) := {| attributes := stored;
                                         trx := Some h |}]> rs)
                 (Database.write (Some h)
                    {| Database.writtenRow := fresh (dom rs);
                       Database.writtenFields := stored |} d)).
  destruct (Fixture.insertEach h rest _ _) as [[created rs'] d']. simpl in *.
  by rewrite IH.
Qed.

(** A call of the fixture's related model that throws has committed
    nothing: what it wrote, it wrote through a transaction. *)
Lemma Fixture_relatedModel_throws_uncommitted call rs d e rs' d' :
  Fixture.relatedModel call rs d = (Thrown e, rs', d') ->
  Database.committed d' = Database.committed d.
Proof.
  unfold Fixture.relatedModel.
  destruct (Fixture.slotOf _) as [h|].
  - pose proof (Fixture_insertEach_committed h (Fixture.payloadsOf call) rs d)
      as Hsame.
    destruct (Fixture.insertEach h _ rs d) as [[[created|e'] rs1] d1];
      [done|]. by intros [= _ _ <-].
  - pose proof (Fixture_insertEach_committed (Database.nextHandle d)
                  (Fixture.payloadsOf call) rs (Database.begin d).2) as Hsame.
    simpl in *.
    destruct (Fixture.insertEach _ _ rs _) as [[[created|e'] rs1] d1];
      [done|]. by intros [= _ _ <-].
Qed.




(** C4. Every write operation runs under one handle: the parent's
    current transaction when it has one, and otherwise the client of
    the query client, which is the handle itself when it is a
    transaction client and on which a transaction is begun when it is
    a plain client. Under an inherited handle, the parent's or the
    client's, the operation adds nothing but persistence steps to the
    trace: no begin, no commit, no rollback. Under a handle of its own,
    begin and either commit or rollback frame the persistence steps. In
    all cases every persistence step, the parent's own save included,
    starts in a store in which the parent's transaction slot holds the
    handle. *)
Theorem writes_run_under_the_resolved_handle
    (persist : Database.t -> LucidRow -> Result Fields)
    (relatedModel : RelatedCall -> gmap ref LucidRow -> Database.t ->
                    Result Returned * gmap ref LucidRow * Database.t)
    (this : HasManyQueryClient.t) (op : HasManyQueryClient.WriteOperation)
    (w : World) :
  let outcome := HasManyQueryClient.run persist relatedModel this op w in
  ∃ h steps,
    Forall (underTrx (HasManyQueryClient.parent this) h) steps
    ∧ Forall isPersistence steps
    ∧ Forall (fun e => ¬ closesTransaction e) steps
    ∧ match trx (rows w !!! HasManyQueryClient.parent this) with
      | Some inherited =>
          h = inherited ∧ trace outcome.2 = trace w ++ steps
      | None =>
          match HasManyQueryClient.client this with
          | TrxClient inherited =>
              h = inherited ∧ trace outcome.2 = trace w ++ steps
          | PlainClient _ =>
              h = Database.nextHandle (db w)
              ∧ trace outcome.2
                = trace w
                    ++ TransactionBegun (HasManyQueryClient.client this) h
                       :: steps ++ [closingEvent outcome.1 h]
          end
      end.
Proof.
  intros outcome. subst outcome.
  destruct (run_unitOfWork persist relatedModel (fun _ => True))
    with (this := this) (op := op) (w := w)
    as (h & store & rest & Hev & _ & Hshape); try done.
  exists h, (RowSaved (HasManyQueryClient.parent this) store :: rest).
  split; [done|].
  split; [eapply Forall_impl; [exact Hev|]; apply underTrx_isPersistence|].
  split; [eapply Forall_impl; [exact Hev|]; intros ev Hu Hc; by destruct ev|].
  unfold existingTrx in Hshape.
  destruct (trx (rows w !!! HasManyQueryClient.parent this)); [done|].
  destruct (HasManyQueryClient.client this); [|done].
  by destruct Hshape as (? & ? & _).
Qed.

(** ** Saving rows: order, hydration and what gets written *)

Lemma getValue_Ok (f : Fields) (k : string) (relation : HasMany)
    (action : string) (v : Value) :
  getValue f k relation action = Ok v ->
  getField f k = v ∧ v ≠ VUndefined ∧ v ≠ VNull.
Proof.
  unfold getValue. destruct (getField f k); intros [= <-]; done.
Qed.

Lemma getValue_of_field (f : Fields) (k : string) (relation : HasMany)
    (action : string) (v : Value) :
  getField f k = v -> v ≠ VUndefined -> v ≠ VNull ->
  getValue f k relation action = Ok v.
Proof. unfold getValue. intros -> ? ?. by destruct v. Qed.

Lemma getField_setField (f : Fields) (k k' : string) (v : Value) :
  getField (setField f k v) k' = if decide (k = k') then v else getField f k'.
Proof.
  unfold getField, setField. case_decide as Hk.
  - subst. by rewrite lookup_insert_eq.
  - by rewrite lookup_insert_ne.
Qed.

Lemma pendingOf_write (h : nat) (d : Database.t) (wr : Database.Write) :
  Database.pendingOf (Database.write (Some h) wr d) h
  = Database.pendingOf d h ++ [wr].
Proof. unfold Database.pendingOf at 1. simpl. by rewrite lookup_insert_eq. Qed.

Lemma pendingOf_writeAll (h : nat) (ws : list Database.Write) (d : Database.t) :
  Database.pendingOf (writeAll h d ws) h = Database.pendingOf d h ++ ws.
Proof.
  revert d. induction ws as [|wr ws IH]; intros d.
  - by rewrite app_nil_r.
  - change (writeAll h d (wr :: ws))
      with (writeAll h (Database.write (Some h) wr d) ws).
    rewrite IH, pendingOf_write. by rewrite <- app_assoc.
Qed.

Lemma committed_writeAll (h : nat) (ws : list Database.Write) (d : Database.t) :
  Database.committed (writeAll h d ws) = Database.committed d.
Proof.
  revert d. induction ws as [|wr ws IH]; intros d; [done|].
  change (writeAll h d (wr :: ws))
    with (writeAll h (Database.write (Some h) wr d) ws).
  by rewrite IH.
Qed.

Lemma writeAll_app (h : nat) (d : Database.t) (ws ws' : list Database.Write) :
  writeAll h (writeAll h d ws) ws' = writeAll h d (ws ++ ws').
Proof. unfold writeAll. by rewrite foldl_app. Qed.

Lemma bind_ext {A B} (m : M A) (k k' : A -> M B) (w : World) :
  (∀ a w, k a w = k' a w) -> bind m k w = bind m k' w.
Proof. intros Hk. unfold bind. by destruct (m w) as [[a|e] w1]. Qed.

Lemma bind_ext_l {A B} (m m' : M A) (k : A -> M B) (w : World) :
  m w = m' w -> bind m k w = bind m' k w.
Proof. intros Hm. unfold bind. by rewrite Hm. Qed.

Lemma bind_ret_tt (m : M unit) (w : World) : (m ;; ret tt) w = m w.
Proof. unfold bind, ret. by destruct (m w) as [[[]|e] w1]. Qed.

Lemma managedTransaction_ext {A} (client : QueryClientContract)
    (k k' : nat -> M A) (w : World) :
  (∀ h w, k h w = k' h w) ->
  managedTransaction client k w = managedTransaction client k' w.
Proof.
  intros Hk. destruct client as [c|h]; simpl; [|apply Hk].
  by rewrite Hk.
Qed.

Lemma savedRows_cons (row : ref) (store : gmap ref LucidRow)
    (events : list Event) :
  savedRows (RowSaved row store :: events) = row :: savedRows events.
Proof. reflexivity. Qed.

(** ** Write operations, step by step *)

Lemma managedTransaction_ret {A B} (client : QueryClientContract) (k : nat -> M A)
    (b : B) (w : World) :
  (managedTransaction client k ;; ret b) w
  = managedTransaction client (fun h => k h ;; ret b) w.
Proof.
  destruct client as [c|h]; [|done]. unfold bind, managedTransaction, ret.
  simpl. by destruct (k _ _) as [[a|e] w1].
Qed.

Section Work.

Import HasManyQueryClient.

Variable persist : Database.t -> LucidRow -> Result Fields.
Variable relatedModel :
  RelatedCall -> gmap ref LucidRow -> Database.t ->
  Result Returned * gmap ref LucidRow * Database.t.
Variable this : t.

(** [managedTransaction(this.parent.$trx || this.client, callback)]
    runs the callback once, with the handle and in the world of the
    unit of work, and closes what it opened. *)
Lemma managed_at_work {A} (callback : nat -> M A) (w : World) :
  (let* target := trxOrClient this in managedTransaction target callback) w
  = ((callback (handleOf this w) (worldAtWork this w)).1,
     closed this w (callback (handleOf this w) (worldAtWork this w)).1
       (callback (handleOf this w) (worldAtWork this w)).2).
Proof.
  unfold handleOf, worldAtWork, closed, inheritedTrx.
  destruct (existingTrx (parent this) (client this) w)
    as [inherited|] eqn:Hslot.
  - rewrite (managed_inherited this callback w inherited Hslot).
    by destruct (callback inherited w).
  - rewrite (managed_owned this callback w Hslot).
    by destruct (callback _ _) as [[a|e] w1].
Qed.

Lemma rows_worldAtWork (w : World) : rows (worldAtWork this w) = rows w.
Proof. unfold worldAtWork. by destruct (inheritedTrx _ _). Qed.

Lemma objects_worldAtWork (w : World) :
  objects (worldAtWork this w) = objects w.
Proof. unfold worldAtWork. by destruct (inheritedTrx _ _). Qed.

(** What is added before and after the callback is no persistence
    step, and touches neither rows nor objects. *)
Lemma worldAtWork_frame (w : World) :
  ∃ before,
    trace (worldAtWork this w) = trace w ++ before
    ∧ Forall (fun e => ¬ isPersistence e) before.
Proof.
  unfold worldAtWork. destruct (inheritedTrx this w).
  - exists []. by rewrite app_nil_r.
  - eexists [_]. split; [done|]. repeat constructor. by intros [].
Qed.

Lemma closed_frame {A} (r : Result A) (inner w : World) :
  ∃ after,
    trace (closed this w r inner) = trace inner ++ after
    ∧ Forall (fun e => ¬ isPersistence e) after
    ∧ rows (closed this w r inner) = rows inner
    ∧ objects (closed this w r inner) = objects inner.
Proof.
  unfold closed. destruct (inheritedTrx this w).
  - exists []. by rewrite app_nil_r.
  - destruct r; (eexists [_]; split; [done|]; split; [|done];
      repeat constructor; by intros []).
Qed.

(** Every write operation is its own steps behind the marking and the
    saving of the parent, inside [managedTransaction]. *)
Lemma run_as_steps (op : WriteOperation) (w : World) :
  run persist relatedModel this op w
  = (let* target := trxOrClient this in
     managedTransaction target (fun trx =>
       setTrx (parent this) trx ;;
       rowSave persist (parent this) ;;
       stepsOf persist relatedModel this op trx)) w.
Proof.
  destruct op; try reflexivity.
  - unfold run, save. rewrite <- bind_assoc.
    rewrite bind_assoc. apply bind_ext. intros target w0.
    rewrite managedTransaction_ret. apply managedTransaction_ext.
    intros h w1. rewrite bind_assoc. apply bind_ext. intros _ w2.
    by rewrite bind_assoc.
  - unfold run, saveMany. cbv zeta. rewrite <- bind_assoc.
    rewrite bind_assoc. apply bind_ext. intros target w0.
    rewrite managedTransaction_ret. apply managedTransaction_ext.
    intros h w1. rewrite bind_assoc. apply bind_ext. intros _ w2.
    by rewrite bind_assoc.
Qed.

(** The marking and the saving of a row whose save the storage
    accepts, and of one it refuses. *)
Lemma marked_save_accepted {A} (row : ref) (h : nat) (steps : M A)
    (stored : Fields) (w : World) :
  persist (db w) {| attributes := attributes (rows w !!! row); trx := Some h |}
  = Ok stored ->
  (setTrx row h ;; rowSave persist row ;; steps) w
  = steps (afterSave row h stored w).
Proof.
  intros Hok. unfold bind, setTrx, rowSave. simpl.
  rewrite lookup_total_insert_eq. rewrite Hok. simpl.
  f_equal. unfold afterSave, withDb, withRows, logged. simpl.
  by rewrite insert_insert_eq.
Qed.

Lemma marked_save_refused {A} (row : ref) (h : nat) (steps : M A)
    (e : Exception) (w : World) :
  persist (db w) {| attributes := attributes (rows w !!! row); trx := Some h |}
  = Thrown e ->
  (setTrx row h ;; rowSave persist row ;; steps) w
  = (Thrown e, afterRefusal row h w).
Proof.
  intros Hno. unfold bind, setTrx, rowSave. simpl.
  rewrite lookup_total_insert_eq. by rewrite Hno.
Qed.

Lemma run_parent_saved (op : WriteOperation) (stored : Fields) (w : World) :
  persist (db (worldAtWork this w)) (parentAtWork this w) = Ok stored ->
  run persist relatedModel this op w
  = ((stepsOf persist relatedModel this op (handleOf this w)
        (afterParentSave this stored w)).1,
     closed this w
       (stepsOf persist relatedModel this op (handleOf this w)
          (afterParentSave this stored w)).1
       (stepsOf persist relatedModel this op (handleOf this w)
          (afterParentSave this stored w)).2).
Proof.
  intros Hok. rewrite run_as_steps, managed_at_work.
  rewrite (marked_save_accepted _ _ _ stored); [done|].
  by rewrite rows_worldAtWork.
Qed.

Lemma run_parent_refused (op : WriteOperation) (e : Exception) (w : World) :
  persist (db (worldAtWork this w)) (parentAtWork this w) = Thrown e ->
  run persist relatedModel this op w
  = (Thrown e,
     closed this w (@Thrown Returned e)
       (afterRefusal (parent this) (handleOf this w) (worldAtWork this w))).
Proof.
  intros Hno. rewrite run_as_steps, managed_at_work.
  rewrite (marked_save_refused _ _ _ e); [done|].
  by rewrite rows_worldAtWork.
Qed.

End Work.

Section SavingRows.

Import HasManyQueryClient.

Variable persist : Database.t -> LucidRow -> Result Fields.
Variable this : t.

Lemma rowSave_spec (row : ref) (w : World) :
  (∃ e, rowSave persist row w = (Thrown e, logged w (RowSaved row (rows w)))
        ∧ persist (db w) (rows w !!! row) = Thrown e)
  ∨ (∃ stored w',
       rowSave persist row w = (Ok tt, w')
       ∧ trace w' = trace w ++ [RowSaved row (rows w)]
       ∧ objects w' = objects w
       ∧ db w' = Database.write (trx (rows w !!! row))
                   {| Database.writtenRow := row;
                      Database.writtenFields := stored |} (db w)).
Proof.
  unfold rowSave. simpl.
  destruct (persist (db w) (rows w !!! row)) as [stored|e].
  - right. eexists _, _. split; [reflexivity|]. done.
  - left. by exists e.
Qed.

Lemma last_cons_Some {A} (x y : A) (l : list A) :
  last l = Some y -> last (x :: l) = Some y.
Proof. intros Hl. by rewrite last_cons, Hl. Qed.

Section UnderHandle.

Variable h : nat.

(** One turn of the loop of [saveMany], which is also what [save] does
    with its one row. *)
Local Abbreviation saveChild := (fun row : ref =>
  hydrateForPersistance (relation this) (parent this) (ARow row) ;;
  setTrx row h ;;
  rowSave persist row) (only parsing).

Lemma saveChild_spec (row : ref) (w : World) :
  (∃ e, saveChild row w = (Thrown e, w)
        ∧ getValue (attributes (rows w !!! parent this))
            (localKey (relation this)) (relation this) "persist" = Thrown e)
  ∨ (∃ store w',
       hydratedSave (relation this) (parent this) (RowSaved row store)
       ∧ trace w' = trace w ++ [RowSaved row store]
       ∧ objects w' = objects w
       ∧ ((∃ e, saveChild row w = (Thrown e, w') ∧ db w' = db w
                ∧ refusedSave persist e (RowSaved row store))
          ∨ (∃ f, saveChild row w = (Ok tt, w')
               ∧ db w' = Database.write (Some h)
                           {| Database.writtenRow := row;
                              Database.writtenFields := f |} (db w)))).
Proof.
  destruct (getValue (attributes (rows w !!! parent this))
              (localKey (relation this)) (relation this) "persist")
    as [v|e] eqn:Hkey.
  2: { left. exists e. split; [|done]. unfold bind, hydrateForPersistance.
       by rewrite Hkey. }
  right.
  pose (w1 := withRows w
    (<[row := {| attributes := setField (attributes (rows w !!! row))
                                 (foreignKey (relation this)) v;
                 trx := trx (rows w !!! row) |}]> (rows w))).
  pose (w2 := withRows w1
    (<[row := {| attributes := attributes (rows w1 !!! row);
                 trx := Some h |}]> (rows w1))).
  assert (Hrun : saveChild row w = rowSave persist row w2).
  { unfold bind, hydrateForPersistance. by rewrite Hkey. }
  rewrite Hrun. clear Hrun.
  apply getValue_Ok in Hkey as (Hfield & Hundef & Hnull).
  assert (Hrow : attributes (rows w2 !!! row)
                 = setField (attributes (rows w !!! row))
                            (foreignKey (relation this)) v).
  { subst w2 w1. simpl. by rewrite !lookup_total_insert_eq. }
  assert (Hslot : trx (rows w2 !!! row) = Some h).
  { subst w2. simpl. by rewrite lookup_total_insert_eq. }
  assert (Hparent : getField (attributes (rows w2 !!! parent this))
                             (localKey (relation this)) = v).
  { destruct (decide (row = parent this)) as [Heq|Hne].
    - rewrite <- Heq at 1. rewrite Hrow, getField_setField.
      case_decide; [done|]. by rewrite Heq.
    - subst w2 w1. simpl. by rewrite !lookup_total_insert_ne. }
  exists (rows w2), (rowSave persist row w2).2.
  split.
  { split.
    - rewrite Hrow, getField_setField, Hparent. by case_decide.
    - rewrite Hparent. by apply getValue_of_field. }
  unfold rowSave. cbn -[w2].
  destruct (persist (db w2) (rows w2 !!! row)) as [stored|e] eqn:Hpersist;
    cbn -[w2].
  - split; [done|]. split; [done|]. right. exists stored.
    split; [done|]. by rewrite Hslot.
  - split; [done|]. split; [done|]. left. exists e.
    split; [done|]. split; [done|]. by exists (db w2).
Qed.

Lemma saveMany_loop (related : list ref) (w : World) :
  let outcome := forEach saveChild related w in
  ∃ children written,
    trace outcome.2 = trace w ++ children
    ∧ Forall (hydratedSave (relation this) (parent this)) children
    ∧ savedRows children `prefix_of` related
    ∧ db outcome.2 = writeAll h (db w) written
    ∧ objects outcome.2 = objects w
    ∧ (outcome.1 = Ok tt ->
       savedRows children = related
       ∧ map Database.writtenRow written = related)
    ∧ (∀ e, outcome.1 = Thrown e ->
         stopsTheSaves persist (relation this) (parent this) e children
           (rows outcome.2)).
Proof.
  revert w. induction related as [|row rest IH]; intros w; simpl.
  - exists [], []. rewrite app_nil_r. by repeat split.
  - assert (Hstep : (saveChild row ;; forEach saveChild rest) w
      = match saveChild row w with
        | (Ok _, w1) => forEach saveChild rest w1
        | (Thrown e, w1) => (Thrown e, w1)
        end) by reflexivity.
    rewrite Hstep. clear Hstep.
    destruct (saveChild_spec row w) as [(e & Hthrow & Hkey)|(store & w1 & Hhyd
      & Htr & Hobj & [(e & Hrun & Hdb & Hrefused)|(f & Hrun & Hdb)])];
      [rewrite Hthrow|rewrite Hrun|rewrite Hrun]; simpl.
    + exists [], []. rewrite app_nil_r. split; [done|].
      split; [constructor|]. split; [apply prefix_nil|].
      split; [done|]. split; [done|]. split; [intros [=]|].
      intros e' [= <-]. by right.
    + exists [RowSaved row store], []. split; [done|].
      split; [by constructor|]. split; [apply prefix_cons, prefix_nil|].
      split; [done|]. split; [done|]. split; [intros [=]|].
      intros e' [= <-]. left. by eexists.
    + destruct (IH w1) as (children & written & Htr' & Hhyd' & Hpre & Hdb'
        & Hobj' & Hok & Hwhy).
      exists (RowSaved row store :: children),
             ({| Database.writtenRow := row; Database.writtenFields := f |}
                :: written).
      rewrite Htr', Htr, <- app_assoc. split; [done|].
      split; [by constructor|]. split; [by apply prefix_cons|].
      split; [by rewrite Hdb', Hdb|]. split; [congruence|]. split.
      * intros Hdone. destruct (Hok Hdone) as [Hs Hw].
        split; [by rewrite savedRows_cons, Hs|]. simpl. by rewrite Hw.
      * intros e He. destruct (Hwhy e He) as [(ev & Hlast & Hev)|Hkey].
        -- left. exists ev. split; [by apply last_cons_Some|done].
        -- by right.
Qed.

Lemma saveMany_callback (related : list ref) (w : World) :
  let m :=
    setTrx (parent this) h ;; rowSave persist (parent this) ;;
    forEach saveChild related in
  ∃ store children written,
    trace (m w).2 = trace w ++ RowSaved (parent this) store :: children
    ∧ Forall (hydratedSave (relation this) (parent this)) children
    ∧ savedRows children `prefix_of` related
    ∧ db (m w).2 = writeAll h (db w) written
    ∧ objects (m w).2 = objects w
    ∧ ((m w).1 = Ok tt ->
       savedRows children = related
       ∧ map Database.writtenRow written = parent this :: related)
    ∧ (∀ e, (m w).1 = Thrown e ->
         stopsTheSaves persist (relation this) (parent this) e
           (RowSaved (parent this) store :: children) (rows (m w).2)).
Proof.
  intros m. subst m.
  pose (w1 := (setTrx (parent this) h w).2).
  assert (Hslot : trx (rows w1 !!! parent this) = Some h).
  { subst w1. simpl. by rewrite lookup_total_insert_eq. }
  assert (Hrun :
    (setTrx (parent this) h ;; rowSave persist (parent this) ;;
     forEach saveChild related) w
    = match rowSave persist (parent this) w1 with
      | (Ok _, w2) => forEach saveChild related w2
      | (Thrown e, w2) => (Thrown e, w2)
      end) by reflexivity.
  rewrite Hrun. clear Hrun.
  destruct (rowSave_spec (parent this) w1)
    as [(e & -> & Hrefused)|(stored & w2 & -> & Htr1 & Hobj1 & Hdb1)].
  - exists (rows w1), [], []. cbn -[w1].
    split; [done|]. split; [constructor|]. split; [apply prefix_nil|].
    split; [done|]. split; [done|]. split; [intros [=]|].
    intros e' [= <-]. left. eexists. split; [reflexivity|]. by exists (db w1).
  - destruct (saveMany_loop related w2)
      as (children & written & Htr & Hhyd & Hpre & Hdb & Hobj & Hok & Hwhy).
    exists (rows w1), children,
      ({| Database.writtenRow := parent this;
          Database.writtenFields := stored |} :: written).
    rewrite Htr, Hdb, Hobj, Htr1, Hobj1, Hdb1, Hslot.
    split; [by rewrite <- app_assoc|]. split; [done|]. split; [done|].
    split; [done|]. split; [done|]. split.
    + intros Hdone. destruct (Hok Hdone) as [Hs Hw]. simpl. by rewrite Hw.
    + intros e He. destruct (Hwhy e He) as [(ev & Hlast & Hev)|Hkey].
      * left. exists ev. split; [by apply last_cons_Some|done].
      * by right.
Qed.

End UnderHandle.

Lemma saveMany_trace (related : list ref) (w : World) :
  let outcome := saveMany persist this related w in
  ∃ before store children after written,
    trace outcome.2
      = trace w ++ before ++ RowSaved (parent this) store :: children ++ after
    ∧ Forall (fun e => ¬ isPersistence e) before
    ∧ Forall (fun e => ¬ isPersistence e) after
    ∧ Forall (hydratedSave (relation this) (parent this)) children
    ∧ savedRows children `prefix_of` related
    ∧ objects outcome.2 = objects w
    ∧ (outcome.1 = Ok RVoid ∨ ∃ e, outcome.1 = Thrown e)
    ∧ (outcome.1 = Ok RVoid ->
       savedRows children = related
       ∧ map Database.writtenRow written = parent this :: related
       ∧ match existingTrx (parent this) (client this) w with
         | Some inherited =>
             Database.pendingOf (db outcome.2) inherited
               = Database.pendingOf (db w) inherited ++ written
             ∧ Database.committed (db outcome.2) = Database.committed (db w)
         | None =>
             Database.committed (db outcome.2)
               = Database.committed (db w) ++ written
         end)
    ∧ (∀ e, outcome.1 = Thrown e ->
         stopsTheSaves persist (relation this) (parent this) e
           (RowSaved (parent this) store :: children) (rows outcome.2)).
Proof.
  intros outcome. subst outcome. unfold saveMany.
  set (callback := fun trx =>
    setTrx (parent this) trx ;; rowSave persist (parent this) ;;
    forEach (fun row =>
      hydrateForPersistance (relation this) (parent this) (ARow row) ;;
      setTrx row trx ;; rowSave persist row) related).
  destruct (existingTrx (parent this) (client this) w)
    as [inherited|] eqn:Hslot.
  - cbv zeta.
    rewrite (managed_inherited_ret this callback RVoid w inherited Hslot).
    destruct (saveMany_callback inherited related w)
      as (store & children & written & Htr & Hhyd & Hpre & Hdb & Hobj & Hok
          & Hwhy).
    fold (callback inherited) in Htr, Hdb, Hobj, Hok, Hwhy.
    destruct (callback inherited w) as [[[]|e] w1]; simpl in *.
    + exists [], store, children, [], written. rewrite app_nil_r.
      split; [done|]. do 5 (split; [done|]). split; [by left|].
      split; [|by intros e [=]].
      intros _. destruct Hok as [Hs Hw]; [done|].
      split; [done|]. split; [done|].
      rewrite Hdb, pendingOf_writeAll, committed_writeAll. done.
    + exists [], store, children, [], written. rewrite app_nil_r.
      split; [done|]. do 5 (split; [done|]). split; [right; eauto|].
      split; [intros [=]|]. intros e' [= <-]. by apply Hwhy.
  - set (h := Database.nextHandle (db w)).
    set (w0 := logged (withDb w (Database.begin (db w)).2)
                      (TransactionBegun (client this) h)).
    cbv zeta. rewrite (managed_owned_ret this callback RVoid w Hslot).
    fold h. fold w0.
    destruct (saveMany_callback h related w0)
      as (store & children & written & Htr & Hhyd & Hpre & Hdb & Hobj & Hok
          & Hwhy).
    fold (callback h) in Htr, Hdb, Hobj, Hok, Hwhy.
    assert (Hnone : Database.pendingOf (db w0) h = []).
    { subst w0 h. unfold Database.pendingOf. simpl.
      by rewrite lookup_insert_eq. }
    destruct (callback h w0) as [[[]|e] w1]; cbn -[w0] in *.
    + exists [TransactionBegun (client this) h], store, children,
        [TransactionCommitted h], written.
      rewrite Htr. split; [subst w0; cbn; by rewrite <- !app_assoc|].
      split; [repeat constructor; by intros []|].
      split; [repeat constructor; by intros []|].
      do 3 (split; [done|]). split; [by left|].
      split; [|by intros e [=]].
      intros _. destruct Hok as [Hs Hw]; [done|].
      split; [done|]. split; [done|].
      rewrite Hdb, pendingOf_writeAll, committed_writeAll, Hnone. done.
    + exists [TransactionBegun (client this) h], store, children,
        [TransactionRolledBack h], written.
      rewrite Htr. split; [subst w0; cbn; by rewrite <- !app_assoc|].
      split; [repeat constructor; by intros []|].
      split; [repeat constructor; by intros []|].
      do 3 (split; [done|]). split; [right; eauto|].
      split; [intros [=]|]. intros e' [= <-]. by apply Hwhy.
Qed.

(** [save] does with its row what [saveMany] does with a sequence of
    that one row. *)
Lemma save_as_saveMany (related : ref) (w : World) :
  save persist this related w = saveMany persist this [related] w.
Proof.
  unfold save, saveMany. cbv zeta.
  apply bind_ext. intros target w0.
  apply bind_ext_l.
  apply managedTransaction_ext. intros trx w1.
  apply bind_ext. intros _ w2. apply bind_ext. intros _ w3.
  symmetry. apply (bind_ret_tt
    (hydrateForPersistance (relation this) (parent this) (ARow related) ;;
     setTrx related trx ;; rowSave persist related)).
Qed.

End SavingRows.

(** C5. In every write operation the first persistence step is the
    parent's own save. In [saveMany] the steps after it are the saves
    of the given rows, one at a time and in the order given, all of
    them when the call returns and a leading part of them when it
    throws; each of these saves starts in a store in which the row's
    foreign-key field holds the parent's local-key value as the parent
    has it then, that is after its own save. The call returns or
    throws, and it throws only when the storage has refused the save
    made last, the parent's or a row's, or when the parent's local key
    does not resolve: short of that every row is saved. [save] is the
    case of a single row. *)
Theorem parent_first_then_children_in_order
    (persist : Database.t -> LucidRow -> Result Fields)
    (relatedModel : RelatedCall -> gmap ref LucidRow -> Database.t ->
                    Result Returned * gmap ref LucidRow * Database.t)
    (this : HasManyQueryClient.t) (w : World) :
  let parent := HasManyQueryClient.parent this in
  let inOrder (outcome : Result Returned * World) (related : list ref) :=
    ∃ before store children after,
      trace outcome.2
        = trace w ++ before ++ RowSaved parent store :: children ++ after
      ∧ Forall (fun e => ¬ isPersistence e) before
      ∧ Forall (fun e => ¬ isPersistence e) after
      ∧ Forall (hydratedSave (HasManyQueryClient.relation this) parent) children
      ∧ savedRows children `prefix_of` related
      ∧ (outcome.1 = Ok RVoid -> savedRows children = related)
      ∧ (outcome.1 = Ok RVoid ∨ ∃ e, outcome.1 = Thrown e)
      ∧ (∀ e, outcome.1 = Thrown e ->
           stopsTheSaves persist (HasManyQueryClient.relation this) parent e
             (RowSaved parent store :: children) (rows outcome.2)) in
  (∀ op, ∃ before store rest,
     trace (HasManyQueryClient.run persist relatedModel this op w).2
       = trace w ++ before ++ RowSaved parent store :: rest
     ∧ Forall (fun e => ¬ isPersistence e) before)
  ∧ (∀ related,
       inOrder (HasManyQueryClient.saveMany persist this related w) related)
  ∧ (∀ related,
       inOrder (HasManyQueryClient.save persist this related w) [related]).
Proof.
  intros parent inOrder.
  assert (Hmany : ∀ related,
    inOrder (HasManyQueryClient.saveMany persist this related w) related).
  { intros related.
    destruct (saveMany_trace persist this related w)
      as (before & store & children & after & written & Htr & Hb & Ha
          & Hhyd & Hpre & _ & Hret & Hok & Hwhy).
    exists before, store, children, after. repeat (split; [done|]).
    split; [|done]. intros Hdone. by destruct (Hok Hdone). }
  split; [|split; [exact Hmany|]].
  - intros op.
    destruct (run_unitOfWork persist relatedModel (fun _ => True))
      with (this := this) (op := op) (w := w)
      as (h & store & rest & _ & _ & Hshape); try done.
    fold parent in Hshape.
    destruct (existingTrx parent (HasManyQueryClient.client this) w).
    + destruct Hshape as [_ Htr]. exists [], store, rest. by split.
    + destruct Hshape as (_ & Htr & _).
      eexists [_], store, _. split; [exact Htr|].
      repeat constructor. by intros [].
  - intros related. rewrite save_as_saveMany. apply Hmany.
Qed.

(** C5, at [saveMany] of the posts "a" and "c" through the user: the
    call returns, so both posts are saved, in that order, each with the
    user's key in place. *)
Lemma parent_first_then_children_in_order_witness :
  ∃ before store children after,
    trace (HasManyQueryClient.saveMany Fixture.persist Fixture.userPosts
             [2; 4]%positive Fixture.world).2
      = trace Fixture.world
          ++ before ++ RowSaved Fixture.user store :: children ++ after
    ∧ savedRows children = [2; 4]%positive
    ∧ Forall (hydratedSave Fixture.posts Fixture.user) children.
Proof.
  destruct (parent_first_then_children_in_order Fixture.persist
              Fixture.relatedModel Fixture.userPosts Fixture.world)
    as (_ & Hmany & _).
  destruct (Hmany [2; 4]%positive)
    as (before & store & children & after & Htr & _ & _ & Hhyd & _ & Hok & _).
  exists before, store, children, after.
  split; [exact Htr|]. split; [apply Hok; by vm_compute|exact Hhyd].
Defined.

(** A key generated by the parent's own save reaches the child: saved
    through a user that has no [id] yet, post 2 is written with the
    [authorId] the storage has just given the user. *)
Example save_hydrates_the_generated_key :
  let start :=
    withRows Fixture.world
      (<[1%positive := {| attributes := ∅; trx := None |}]>
         (rows Fixture.world)) in
  let outcome :=
    HasManyQueryClient.save Fixture.persist Fixture.userPosts 2%positive start in
  outcome.1 = Ok RVoid
  ∧ rowField (rows outcome.2 !!! 1%positive) "id" = VNum 1
  ∧ rowField (rows outcome.2 !!! 2%positive) "authorId" = VNum 1
  ∧ map Database.writtenRow (Database.committed (db outcome.2))
    = [1; 2]%positive.
Proof. by vm_compute. Qed.

(** C7, as the spec words it, fails: [save(child)] and
    [saveMany(children)] return nothing, not the row or the rows. On a
    user with two posts both calls return normally, with no value. *)
Lemma save_returns_no_row :
  (HasManyQueryClient.save Fixture.persist Fixture.userPosts 2%positive
     Fixture.world).1 = Ok RVoid
  ∧ (HasManyQueryClient.save Fixture.persist Fixture.userPosts 2%positive
       Fixture.world).1 ≠ Ok (RRow 2%positive)
  ∧ (HasManyQueryClient.saveMany Fixture.persist Fixture.userPosts
       [2; 4]%positive Fixture.world).1 = Ok RVoid
  ∧ (HasManyQueryClient.saveMany Fixture.persist Fixture.userPosts
       [2; 4]%positive Fixture.world).1 ≠ Ok (RRows [2; 4]%positive).
Proof.
  assert (Hsave :
    (HasManyQueryClient.save Fixture.persist Fixture.userPosts 2%positive
       Fixture.world).1 = Ok RVoid) by (by vm_compute).
  assert (Hmany :
    (HasManyQueryClient.saveMany Fixture.persist Fixture.userPosts
       [2; 4]%positive Fixture.world).1 = Ok RVoid) by (by vm_compute).
  rewrite Hsave, Hmany. done.
Qed.

(** C7, amended. [save(child)] and [saveMany(children)] return no
    value. When they return, the parent and then the row passed in
    (every row of the sequence, in the order given) have been written
    by their own saves: these writes are what the call has committed,
    when it ran under a transaction of its own, and what it has added
    to the pending writes of the transaction it inherited, when it
    found one on the parent or as its client. *)
Theorem save_returns_nothing_and_persists_the_rows
    (persist : Database.t -> LucidRow -> Result Fields)
    (this : HasManyQueryClient.t) (w : World) :
  let parent := HasManyQueryClient.parent this in
  let persists (outcome : Result Returned * World) (related : list ref) :=
    (outcome.1 = Ok RVoid ∨ ∃ e, outcome.1 = Thrown e)
    ∧ (outcome.1 = Ok RVoid ->
       ∃ written,
         map Database.writtenRow written = parent :: related
         ∧ match inheritedTrx this w with
           | Some inherited =>
               Database.pendingOf (db outcome.2) inherited
                 = Database.pendingOf (db w) inherited ++ written
               ∧ Database.committed (db outcome.2) = Database.committed (db w)
           | None =>
               Database.committed (db outcome.2)
                 = Database.committed (db w) ++ written
           end) in
  (∀ related,
     persists (HasManyQueryClient.save persist this related w) [related])
  ∧ (∀ related,
       persists (HasManyQueryClient.saveMany persist this related w) related).
Proof.
  intros parent persists.
  assert (Hmany : ∀ related,
    persists (HasManyQueryClient.saveMany persist this related w) related).
  { intros related.
    destruct (saveMany_trace persist this related w)
      as (before & store & children & after & written & _ & _ & _
          & _ & _ & _ & Hret & Hok & _).
    split; [exact Hret|]. intros Hdone. exists written.
    by destruct (Hok Hdone) as (_ & ? & ?). }
  split; [|exact Hmany].
  intros related. rewrite save_as_saveMany. apply Hmany.
Qed.

(** ** The batch operations: hydration in place and predicate fields *)

Section BatchOperations.

Import HasManyQueryClient.

Variable persist : Database.t -> LucidRow -> Result Fields.
Variable relatedModel :
  RelatedCall -> gmap ref LucidRow -> Database.t ->
  Result Returned * gmap ref LucidRow * Database.t.
Variable this : t.

(** What [managedTransaction(this.parent.$trx || this.client, callback)]
    adds around its callback touches neither rows nor objects, and is
    no persistence step. *)
Lemma managed_frame {A} (callback : nat -> M A) (w : World) :
  let m :=
    let* target := trxOrClient this in managedTransaction target callback in
  ∃ h w0 before after,
    trace w0 = trace w ++ before
    ∧ rows w0 = rows w
    ∧ objects w0 = objects w
    ∧ Forall (fun e => ¬ isPersistence e) before
    ∧ Forall (fun e => ¬ isPersistence e) after
    ∧ (m w).1 = (callback h w0).1
    ∧ trace (m w).2 = trace (callback h w0).2 ++ after
    ∧ rows (m w).2 = rows (callback h w0).2
    ∧ objects (m w).2 = objects (callback h w0).2.
Proof.
  intros m. subst m.
  destruct (existingTrx (parent this) (client this) w)
    as [inherited|] eqn:Hslot.
  - assert (Hrun :
      (let* target := trxOrClient this in managedTransaction target callback) w
      = callback inherited w) by (by apply managed_inherited).
    rewrite Hrun.
    exists inherited, w, [], []. rewrite !app_nil_r. done.
  - set (h := Database.nextHandle (db w)).
    set (w0 := logged (withDb w (Database.begin (db w)).2)
                      (TransactionBegun (client this) h)).
    assert (Hrun :
      (let* target := trxOrClient this in managedTransaction target callback) w
      = match callback h w0 with
        | (Ok response, w1) =>
            (Ok response,
             logged (withDb w1 (Database.commit h (db w1)))
                    (TransactionCommitted h))
        | (Thrown e, w1) =>
            (Thrown e,
             logged (withDb w1 (Database.rollback h (db w1)))
                    (TransactionRolledBack h))
        end) by (by apply managed_owned).
    rewrite Hrun.
    exists h, w0, [TransactionBegun (client this) h],
      [closingEvent (callback h w0).1 h].
    split; [done|]. split; [done|]. split; [done|].
    split; [repeat constructor; by intros []|].
    destruct (callback h w0) as [[a|e] w1]; simpl.
    + split; [repeat constructor; by intros []|]. done.
    + split; [repeat constructor; by intros []|]. done.
Qed.

Lemma hydrate_object_spec (object : ref) (w : World) :
  match getValue (attributes (rows w !!! parent this))
          (localKey (relation this)) (relation this) "persist" with
  | Ok v =>
      hydrateForPersistance (relation this) (parent this) (AnObject object) w
      = (Ok tt,
         withObjects w
           (<[object := setField (objects w !!! object)
                          (foreignKey (relation this)) v]> (objects w)))
  | Thrown e =>
      hydrateForPersistance (relation this) (parent this) (AnObject object) w
      = (Thrown e, w)
  end.
Proof.
  unfold hydrateForPersistance. by destruct (getValue _ _ _ _).
Qed.

(** [payload.forEach((row) => hydrateForPersistance(parent, row))]:
    when it returns, every payload object holds the parent's resolved
    local-key value in its foreign-key field, and so does every object
    that held it before. Rows, database and trace stay as they are. *)
Lemma hydrate_loop (payload : list ref) (w : World) :
  let outcome :=
    forEach (fun row =>
      hydrateForPersistance (relation this) (parent this) (AnObject row))
      payload w in
  let resolved (os : gmap ref Fields) (o : ref) :=
    getValue (attributes (rows w !!! parent this)) (localKey (relation this))
             (relation this) "persist"
    = Ok (getField (os !!! o) (foreignKey (relation this))) in
  rows outcome.2 = rows w
  ∧ db outcome.2 = db w
  ∧ trace outcome.2 = trace w
  ∧ (outcome.1 = Ok tt ->
     ∀ o, o ∈ payload ∨ resolved (objects w) o ->
          resolved (objects outcome.2) o)
  ∧ (∀ e, outcome.1 = Thrown e ->
       getValue (attributes (rows w !!! parent this))
         (localKey (relation this)) (relation this) "persist" = Thrown e).
Proof.
  revert w. induction payload as [|x rest IH]; intros w outcome resolved.
  - subst outcome. simpl. repeat split; try done.
    intros _ o [Hin|Hres]; [by apply elem_of_nil in Hin|done].
  - subst outcome resolved.
    assert (Hstep :
      forEach (fun row =>
        hydrateForPersistance (relation this) (parent this) (AnObject row))
        (x :: rest) w
      = match hydrateForPersistance (relation this) (parent this)
                (AnObject x) w with
        | (Ok _, w1) =>
            forEach (fun row =>
              hydrateForPersistance (relation this) (parent this)
                (AnObject row)) rest w1
        | (Thrown e, w1) => (Thrown e, w1)
        end) by reflexivity.
    rewrite Hstep. clear Hstep.
    pose proof (hydrate_object_spec x w) as Hx.
    destruct (getValue (attributes (rows w !!! parent this)) _ _ _)
      as [v|e] eqn:Hkey; rewrite Hx;
      [|repeat split; try done; by intros e' [= <-]].
    set (w1 := withObjects w _).
    destruct (IH w1) as (Hrows & Hdb & Htr & Hok & Hwhy).
    split; [done|]. split; [done|]. split; [done|].
    split; [|intros e He; specialize (Hwhy e He); cbn -[w1] in Hwhy;
             replace (rows w1) with (rows w) in Hwhy by done;
             rewrite Hkey in Hwhy; discriminate].
    intros Hdone o Ho.
    specialize (Hok Hdone o). cbn -[w1] in Hok.
    replace (rows w1) with (rows w) in Hok by done.
    rewrite Hkey in Hok. apply Hok.
    destruct (decide (o = x)) as [->|Hne].
    + right. subst w1. simpl.
      rewrite lookup_total_insert_eq, getField_setField. by case_decide.
    + destruct Ho as [Hin|Hres].
      * left. apply elem_of_cons in Hin as [?|?]; done.
      * right. subst w1. simpl. by rewrite lookup_total_insert_ne.
Qed.

Lemma mapM_readObject (payload : list ref) (w : World) :
  mapM readObject payload w
  = (Ok (map (fun o => objects w !!! o) payload), w).
Proof.
  induction payload as [|x rest IH]; [done|].
  simpl. unfold bind at 1. unfold readObject at 1. unfold bind at 1.
  by rewrite IH.
Qed.

Lemma delegate_spec (callOf : list Fields -> RelatedCall)
    (payload : list ref) (w : World) :
  (let* rows := mapM readObject payload in
   callRelated relatedModel (callOf rows)) w
  = let call := callOf (map (fun o => objects w !!! o) payload) in
    match relatedModel call (rows w) (db w) with
    | (r, rs, d) =>
        (r, withDb (withRows (logged w (RelatedCalled call (rows w))) rs) d)
    end.
Proof. unfold bind. by rewrite mapM_readObject. Qed.

(** The callback of [fetchOrCreateMany] and [updateOrCreateMany], which
    differ in the method [related] of the related model they call. It
    stops before calling the related model only when the storage
    refuses the parent or the parent's key, as stored, does not
    resolve. *)
Lemma batch_callback
    (related : list Value -> list Fields -> AdapterOptions -> RelatedCall)
    (payload : list ref) (predicate : Any)
    (options : option ModelAssignOptions) (h : nat) (w : World) :
  let m :=
    setTrx (parent this) h ;;
    rowSave persist (parent this) ;;
    forEach (fun row =>
      hydrateForPersistance (relation this) (parent this) (AnObject row))
      payload ;;
    let* rows := mapM readObject payload in
    callRelated relatedModel
      (related
         (normalizePredicate predicate ++ [VStr (foreignKey (relation this))])
         rows (spreadOptions h options)) in
  let marked :=
    {| attributes := attributes (rows w !!! parent this); trx := Some h |} in
  ∃ store,
    ((∃ e, (m w).1 = Thrown e
           ∧ (persist (db w) marked = Thrown e
              ∨ ∃ stored, persist (db w) marked = Ok stored
                  ∧ getValue stored (localKey (relation this)) (relation this)
                             "persist" = Thrown e))
     ∧ trace (m w).2 = trace w ++ [RowSaved (parent this) store])
    ∨ (∃ store' stored,
         trace (m w).2
           = trace w
               ++ [RowSaved (parent this) store;
                   RelatedCalled
                     (related
                        (normalizePredicate predicate
                           ++ [VStr (foreignKey (relation this))])
                        (map (fun o => objects (m w).2 !!! o) payload)
                        (spreadOptions h options)) store']
         ∧ persist (db w) marked = Ok stored
         ∧ attributes (store' !!! parent this) = stored
         ∧ ∀ o, o ∈ payload ->
             getValue (attributes (store' !!! parent this))
               (localKey (relation this)) (relation this) "persist"
             = Ok (getField (objects (m w).2 !!! o)
                            (foreignKey (relation this)))).
Proof.
  intros m marked. subst m.
  exists (<[parent this := marked]> (rows w)).
  destruct (persist (db w) marked) as [stored|e] eqn:Hparent.
  2: { left. rewrite (marked_save_refused persist _ _ _ e w Hparent).
       split; [exists e; split; [done|by left]|done]. }
  rewrite (marked_save_accepted persist _ _ _ stored w Hparent).
  set (w2 := afterSave (parent this) h stored w).
  assert (Hstored : attributes (rows w2 !!! parent this) = stored).
  { subst w2. unfold afterSave. simpl. by rewrite lookup_total_insert_eq. }
  assert (Htr1 : trace w2
    = trace w ++ [RowSaved (parent this) (<[parent this := marked]> (rows w))])
    by done.
  match goal with |- context [(bind (forEach ?body payload) ?k) w2] =>
    assert (Hrun : bind (forEach body payload) k w2
      = match forEach body payload w2 with
        | (Ok a, w3) => k a w3
        | (Thrown e, w3) => (Thrown e, w3)
        end) by reflexivity
  end.
  rewrite Hrun. clear Hrun.
  destruct (hydrate_loop payload w2) as (Hrows & Hdb & Htr & Hok & Hwhy).
  destruct (forEach _ payload w2) as [[[]|e] w3];
    cbn -[w2] in Hrows, Hdb, Htr, Hok, Hwhy.
  2: { left. split; [|cbn -[w2]; by rewrite Htr, Htr1].
       exists e. split; [done|]. right. exists stored. split; [done|].
       rewrite <- Hstored. by apply Hwhy. }
  right. exists (rows w3), stored.
  rewrite (delegate_spec
    (fun rows => related
       (normalizePredicate predicate ++ [VStr (foreignKey (relation this))])
       rows (spreadOptions h options)) payload w3).
  cbv zeta.
  destruct (relatedModel _ (rows w3) (db w3)) as [[r rs] d]. cbn -[w2].
  split; [by rewrite Htr, Htr1, <- app_assoc|].
  split; [done|]. split; [by rewrite Hrows|].
  intros o Ho. rewrite Hrows. apply Hok; [done|by left].
Qed.

(** The two batch operations, from start to end. *)
Lemma batch_trace
    (related : list Value -> list Fields -> AdapterOptions -> RelatedCall)
    (payload : list ref) (predicate : Any)
    (options : option ModelAssignOptions) (w : World) :
  let m :=
    let* target := trxOrClient this in
    managedTransaction target (fun trx =>
      setTrx (parent this) trx ;;
      rowSave persist (parent this) ;;
      forEach (fun row =>
        hydrateForPersistance (relation this) (parent this) (AnObject row))
        payload ;;
      let* rows := mapM readObject payload in
      callRelated relatedModel
        (related
           (normalizePredicate predicate
              ++ [VStr (foreignKey (relation this))])
           rows (spreadOptions trx options))) in
  let saved := persist (db (worldAtWork this w)) (parentAtWork this w) in
  ∃ before store after,
    Forall (fun e => ¬ isPersistence e) before
    ∧ Forall (fun e => ¬ isPersistence e) after
    ∧ (((∃ e, (m w).1 = Thrown e
              ∧ (saved = Thrown e
                 ∨ ∃ stored, saved = Ok stored
                     ∧ getValue stored (localKey (relation this))
                                (relation this) "persist" = Thrown e))
        ∧ trace (m w).2
          = trace w ++ before ++ [RowSaved (parent this) store] ++ after)
       ∨ (∃ store' payloads options' stored,
            trace (m w).2
              = trace w ++ before
                  ++ [RowSaved (parent this) store;
                      RelatedCalled
                        (related
                           (normalizePredicate predicate
                              ++ [VStr (foreignKey (relation this))])
                           payloads options') store']
                  ++ after
            ∧ saved = Ok stored
            ∧ attributes (store' !!! parent this) = stored
            ∧ ∀ o, o ∈ payload ->
                getValue (attributes (store' !!! parent this))
                  (localKey (relation this)) (relation this) "persist"
                = Ok (getField (objects (m w).2 !!! o)
                               (foreignKey (relation this))))).
Proof.
  intros m saved. subst m saved.
  match goal with |- context [managedTransaction _ ?k] =>
    set (callback := k)
  end.
  rewrite (managed_at_work this callback w). cbn [fst snd].
  destruct (worldAtWork_frame this w) as (before & Htr0 & Hbefore).
  destruct (closed_frame this (callback (handleOf this w) (worldAtWork this w)).1
              (callback (handleOf this w) (worldAtWork this w)).2 w)
    as (after & Htr & Hafter & Hrows & Hobj).
  destruct (batch_callback related payload predicate options (handleOf this w)
              (worldAtWork this w))
    as (store & [[(e & He & Hwhy) Hstop]
                |(store' & stored & Hcalled & Hsaved & Hstored & Hhyd)]);
    fold (callback (handleOf this w)) in *;
    rewrite (rows_worldAtWork this w) in *;
    fold (parentAtWork this w) in *.
  - exists before, store, after. split; [done|]. split; [done|]. left.
    split; [by exists e|]. rewrite Htr, Hstop, Htr0. by rewrite <- !app_assoc.
  - exists before, store, after. split; [done|]. split; [done|]. right.
    eexists store', _, _, stored. rewrite Htr, Hcalled, Htr0, Hobj.
    split; [by rewrite <- !app_assoc|]. done.
Qed.

End BatchOperations.

(** ** Copies: what [create] and [createMany] leave alone *)

Section Copies.

Import HasManyQueryClient.

Variable persist : Database.t -> LucidRow -> Result Fields.
Variable relatedModel :
  RelatedCall -> gmap ref LucidRow -> Database.t ->
  Result Returned * gmap ref LucidRow * Database.t.
Variable this : t.

(** The objects there were at the start. *)
Variable before : gmap ref Fields.

Local Abbreviation I := (fun w : World => before ⊆ objects w) (only parsing).
Local Abbreviation P := (fun _ : Event => True) (only parsing).

Lemma rowSave_leaves_objects (row : ref) : keeps I P (rowSave persist row).
Proof.
  intros w Hw.
  destruct (rowSave_spec persist row w)
    as [(e & -> & _)|(stored & w' & -> & Htr & Hobj & _)].
  - exists [RowSaved row (rows w)]. by repeat constructor.
  - exists [RowSaved row (rows w)]. simpl. rewrite Hobj.
    by repeat constructor.
Qed.

Lemma callRelated_leaves_objects (call : RelatedCall) :
  keeps I P (callRelated relatedModel call).
Proof.
  intros w Hw. exists [RelatedCalled call (rows w)].
  unfold callRelated. simpl.
  destruct (relatedModel call (rows w) (db w)) as [[r rs] d]. simpl.
  by repeat constructor.
Qed.

(** [Object.assign({}, value)] followed by the hydration of the copy. *)
Lemma copy_leaves_objects {A} (source : ref) (k : ref -> M A) :
  (∀ copy, keeps I P (k copy)) ->
  keeps I P
    (let* valueToPersist := objectAssign source in
     hydrateForPersistance (relation this) (parent this)
       (AnObject valueToPersist) ;;
     k valueToPersist).
Proof.
  intros Hk.
  apply triple_bind with (J := fun copy w => I w ∧ before !! copy = None).
  - intros w Hw. exists []. rewrite app_nil_r. split; [done|].
    split; [constructor|]. simpl.
    assert (Hfresh : objects w !! fresh (dom (objects w)) = None).
    { apply not_elem_of_dom, is_fresh. }
    split.
    + etrans; [exact Hw|]. by apply insert_subseteq.
    + destruct (before !! fresh (dom (objects w))) eqn:Hb; [|done].
      eapply lookup_weaken in Hb; [|exact Hw]. congruence.
  - intros copy.
    apply triple_bind with (J := fun _ w => I w); [|intros _; apply Hk].
    intros w [Hw Hcopy]. exists []. rewrite app_nil_r.
    pose proof (hydrate_object_spec this copy w) as Hrun.
    destruct (getValue _ _ _ _); rewrite Hrun; simpl.
    + split; [done|]. split; [constructor|]. by apply insert_subseteq_r.
    + split; [done|]. split; [constructor|]. done.
Qed.

Lemma create_callback_leaves_objects (values : ref)
    (options : option ModelAssignOptions) (h : nat) :
  keeps I P
    (setTrx (parent this) h ;;
     rowSave persist (parent this) ;;
     let* valuesToPersist := objectAssign values in
     hydrateForPersistance (relation this) (parent this)
       (AnObject valuesToPersist) ;;
     let* persisted := readObject valuesToPersist in
     callRelated relatedModel
       (RelatedCreate persisted (spreadOptions h options))).
Proof.
  apply keeps_bind; [by apply keeps_silent|]. intros _.
  apply keeps_bind; [apply rowSave_leaves_objects|]. intros _.
  apply copy_leaves_objects. intros copy.
  apply keeps_bind; [by apply keeps_silent|]. intros f.
  apply callRelated_leaves_objects.
Qed.

Lemma createMany_callback_leaves_objects (values : list ref)
    (options : option ModelAssignOptions) (h : nat) :
  keeps I P
    (setTrx (parent this) h ;;
     rowSave persist (parent this) ;;
     let* valuesToPersist :=
       mapM (fun value =>
         let* valueToPersist := objectAssign value in
         hydrateForPersistance (relation this) (parent this)
           (AnObject valueToPersist) ;;
         ret valueToPersist) values in
     let* persisted := mapM readObject valuesToPersist in
     callRelated relatedModel
       (RelatedCreateMany persisted (spreadOptions h options))).
Proof.
  apply keeps_bind; [by apply keeps_silent|]. intros _.
  apply keeps_bind; [apply rowSave_leaves_objects|]. intros _.
  apply keeps_bind.
  { apply keeps_mapM. intros value.
    apply (copy_leaves_objects value (fun copy => ret copy)).
    intros copy. apply keeps_ret. }
  intros copies.
  apply keeps_bind; [apply keeps_mapM; intros o; by apply keeps_silent|].
  intros fs. apply callRelated_leaves_objects.
Qed.

End Copies.

(** C9. [create] and [createMany] leave every object there was before
    the call with the fields it had, the caller's field-value maps
    among them: the foreign key is written to a copy. When
    [fetchOrCreateMany] or [updateOrCreateMany] returns, the related
    model has been called; and once the related model has been called,
    whether that call returns or throws, every payload object the
    caller passed holds in its foreign-key field the parent's resolved
    local-key value, as the parent had it at that call. The call is
    reached, and the payload objects hold the key, whenever the storage
    accepts the parent's own save and the parent's local key resolves
    in the fields the storage answers with. *)
Theorem create_hydrates_copies_and_batches_hydrate_in_place
    (persist : Database.t -> LucidRow -> Result Fields)
    (relatedModel : RelatedCall -> gmap ref LucidRow -> Database.t ->
                    Result Returned * gmap ref LucidRow * Database.t)
    (this : HasManyQueryClient.t) (options : option ModelAssignOptions)
    (w : World) :
  let relation := HasManyQueryClient.relation this in
  let parent := HasManyQueryClient.parent this in
  let unchanged (outcome : Result Returned * World) :=
    ∀ o f, objects w !! o = Some f -> objects outcome.2 !! o = Some f in
  let hydrated (outcome : Result Returned * World) (payload : list ref) :=
    ∃ events,
      trace outcome.2 = trace w ++ events
      ∧ (∀ v, outcome.1 = Ok v ->
           ∃ call store, RelatedCalled call store ∈ events)
      ∧ (∀ call store,
           RelatedCalled call store ∈ events ->
           ∀ o, o ∈ payload ->
             getValue (attributes (store !!! parent)) (localKey relation)
                      relation "persist"
             = Ok (getField (objects outcome.2 !!! o) (foreignKey relation)))
      ∧ (∀ stored key,
           persist (db (worldAtWork this w)) (parentAtWork this w) = Ok stored ->
           getValue stored (localKey relation) relation "persist" = Ok key ->
           (∃ call store, RelatedCalled call store ∈ events)
           ∧ ∀ o, o ∈ payload ->
               getField (objects outcome.2 !!! o) (foreignKey relation) = key) in
  (∀ values,
     unchanged (HasManyQueryClient.create persist relatedModel this values
                  options w))
  ∧ (∀ values,
       unchanged (HasManyQueryClient.createMany persist relatedModel this
                    values options w))
  ∧ (∀ payload predicate,
       hydrated (HasManyQueryClient.fetchOrCreateMany persist relatedModel
                   this payload predicate options w) payload)
  ∧ (∀ payload predicate,
       hydrated (HasManyQueryClient.updateOrCreateMany persist relatedModel
                   this payload predicate options w) payload).
Proof.
  intros relation parent unchanged hydrated.
  assert (Hframe : ∀ (callback : nat -> M Returned),
    (∀ h, keeps (fun w' => objects w ⊆ objects w') (fun _ => True)
            (callback h)) ->
    unchanged
      ((let* target := HasManyQueryClient.trxOrClient this in
        managedTransaction target callback) w)).
  { intros callback Hkeeps o f Ho.
    destruct (managed_frame this callback w)
      as (h & w0 & _ & _ & _ & _ & Hobj0 & _ & _ & _ & _ & _ & Hobj).
    rewrite Hobj.
    destruct (Hkeeps h w0) as (_ & _ & _ & Hsub); [by rewrite Hobj0|].
    eapply lookup_weaken; eauto. }
  assert (Hbatch : ∀ related payload predicate,
    hydrated
      ((let* target := HasManyQueryClient.trxOrClient this in
        managedTransaction target (fun trx =>
          setTrx parent trx ;;
          HasManyQueryClient.rowSave persist parent ;;
          forEach (fun row =>
            hydrateForPersistance relation parent (AnObject row)) payload ;;
          let* rows := mapM HasManyQueryClient.readObject payload in
          HasManyQueryClient.callRelated relatedModel
            (related
               (HasManyQueryClient.normalizePredicate predicate
                  ++ [VStr (foreignKey relation)])
               rows (spreadOptions trx options)))) w) payload).
  { intros related payload predicate.
    destruct (batch_trace persist relatedModel this related payload predicate
                options w)
      as (before & store & after & Hbefore & Hafter
          & [[(e & He & Hwhy) Htr]
            |(store' & payloads & options' & stored' & Htr & Hsaved & Hstored
              & Hhyd)]);
      rewrite Forall_forall in Hbefore, Hafter.
    - eexists. split; [exact Htr|]. split; [|split].
      + intros v Hv. fold parent relation in He. rewrite Hv in He.
        discriminate.
      + intros call s Hin. exfalso.
        rewrite !elem_of_app, list_elem_of_singleton in Hin.
        destruct Hin as [Hin|[Hin|Hin]];
          [by apply Hbefore in Hin|done|by apply Hafter in Hin].
      + intros stored key Hok Hkey. exfalso.
        fold parent relation in Hwhy.
        destruct Hwhy as [Hno|(stored' & Hs & Hk)]; rewrite Hok in *;
          [discriminate|]. injection Hs as <-. rewrite Hkey in Hk.
        discriminate.
    - assert (Hcalled : ∃ call s,
        RelatedCalled call s
          ∈ before
              ++ [RowSaved (HasManyQueryClient.parent this) store;
                  RelatedCalled
                    (related
                       (HasManyQueryClient.normalizePredicate predicate
                          ++ [VStr (foreignKey
                                      (HasManyQueryClient.relation this))])
                       payloads options') store'] ++ after).
      { eexists _, store'.
        apply elem_of_app. right. apply elem_of_app. left.
        apply elem_of_cons. right. apply list_elem_of_singleton. reflexivity. }
      eexists. split; [exact Htr|]. split; [|split].
      + intros _ _. exact Hcalled.
      + intros call s Hin.
        rewrite !elem_of_app, elem_of_cons, list_elem_of_singleton in Hin.
        destruct Hin as [Hin|[[Hin|Hin]|Hin]];
          [by apply Hbefore in Hin|done| |by apply Hafter in Hin].
        injection Hin as _ ->. exact Hhyd.
      + intros stored key Hok Hkey. split; [exact Hcalled|].
        intros o Ho. specialize (Hhyd o Ho).
        fold parent in Hstored. fold parent relation in Hhyd.
        rewrite Hstored in Hhyd. rewrite Hok in Hsaved.
        injection Hsaved as <-. rewrite Hkey in Hhyd. by injection Hhyd. }
  split; [|split; [|split]].
  - intros values. apply Hframe. intros h.
    apply create_callback_leaves_objects.
  - intros values. apply Hframe. intros h.
    apply createMany_callback_leaves_objects.
  - intros payload predicate.
    apply (Hbatch RelatedFetchOrCreateMany payload predicate).
  - intros payload predicate.
    apply (Hbatch RelatedUpdateOrCreateMany payload predicate).
Qed.

(** C9, at [fetchOrCreateMany([a, b, c])] through the user, whose [id]
    is 1: the storage accepts the user, so the related model is called
    and the three payload objects hold 1 as [authorId], although the
    call then throws at [b]. *)
Lemma create_hydrates_copies_and_batches_hydrate_in_place_witness :
  let outcome :=
    HasManyQueryClient.fetchOrCreateMany Fixture.persist Fixture.relatedModel
      Fixture.userPosts [1; 2; 3]%positive (AVal VUndefined) None
      Fixture.world in
  outcome.1 = Thrown (ConstraintViolationError "title")
  ∧ ∀ o, o ∈ [1; 2; 3]%positive ->
      getField (objects outcome.2 !!! o) "authorId" = VNum 1.
Proof.
  intros outcome. split; [by vm_compute|].
  destruct (create_hydrates_copies_and_batches_hydrate_in_place
              Fixture.persist Fixture.relatedModel Fixture.userPosts None
              Fixture.world) as (_ & _ & Hfetch & _).
  destruct (Hfetch [1; 2; 3]%positive (AVal VUndefined))
    as (events & _ & _ & _ & Hreached).
  destruct (Hreached {[ "id" := VNum 1 ]} (VNum 1)) as [_ Hheld];
    [by vm_compute..|].
  exact Hheld.
Defined.

(** [create] on the payload object 1: the related model receives the
    fields of the object together with the foreign key, and the object
    itself is as it was. *)
Example create_hydrates_a_copy :
  let outcome :=
    HasManyQueryClient.create Fixture.persist Fixture.relatedModel
      Fixture.userPosts 1%positive None Fixture.world in
  objects outcome.2 !! 1%positive = Some (Fixture.titled (VStr "a"))
  ∧ ∃ store,
      last (trace outcome.2)
      = Some (TransactionCommitted 0)
      ∧ RelatedCalled
          (RelatedCreate
             (<["authorId" := VNum 1]> (Fixture.titled (VStr "a")))
             {| adapterClient := Some (TrxClient 0); adapterRest := ∅ |}) store
        ∈ trace outcome.2.
Proof.
  intros outcome. split; [by vm_compute|].
  eexists. split; [by vm_compute|].
  assert (Htrace : ∃ e1 e2 e4, trace outcome.2 = [e1; e2;
    RelatedCalled
      (RelatedCreate (<["authorId" := VNum 1]> (Fixture.titled (VStr "a")))
         {| adapterClient := Some (TrxClient 0); adapterRest := ∅ |})
      (rows (HasManyQueryClient.rowSave Fixture.persist 1%positive
               (setTrx 1%positive 0
                  (logged (withDb Fixture.world
                             (Database.begin (db Fixture.world)).2)
                     (TransactionBegun Fixture.connection 0))).2).2); e4]).
  { eexists _, _, _. vm_compute. reflexivity. }
  destruct Htrace as (e1 & e2 & e4 & ->).
  apply elem_of_cons. right. apply elem_of_cons. right.
  apply elem_of_cons. left. reflexivity.
Qed.

(** C6. In [fetchOrCreateMany] and [updateOrCreateMany] every call of
    the related model carries as predicate-field list the caller's
    predicate made an array (an array as it is, a truthy single value
    as a one-element array, anything else as the empty array) followed
    by the relation's foreign key. Such a call has been made when the
    operation returns, and is made, whether it then returns or throws,
    whenever the storage accepts the parent's own save and the parent's
    local key resolves in the fields the storage answers with. So the
    list is [["email", foreignKey]] for
    ["email"] and for [["email"]], [[foreignKey]] for an absent
    predicate, and [[foreignKey, foreignKey]] when the caller supplies
    the foreign key: nothing is deduplicated. *)
Theorem predicate_fields_are_normalized_then_scoped
    (persist : Database.t -> LucidRow -> Result Fields)
    (relatedModel : RelatedCall -> gmap ref LucidRow -> Database.t ->
                    Result Returned * gmap ref LucidRow * Database.t)
    (this : HasManyQueryClient.t) (payload : list ref)
    (options : option ModelAssignOptions) (w : World) :
  let key := VStr (foreignKey (HasManyQueryClient.relation this)) in
  let passes (outcome : Result Returned * World) (expected : list Value) :=
    ∃ events,
      trace outcome.2 = trace w ++ events
      ∧ (∀ call store,
           RelatedCalled call store ∈ events ->
           predicateOf call = Some expected)
      ∧ (∀ v, outcome.1 = Ok v ->
           ∃ call store, RelatedCalled call store ∈ events)
      ∧ (∀ stored resolved,
           persist (db (worldAtWork this w)) (parentAtWork this w) = Ok stored ->
           getValue stored (localKey (HasManyQueryClient.relation this))
                    (HasManyQueryClient.relation this) "persist" = Ok resolved ->
           ∃ call store,
             RelatedCalled call store ∈ events
             ∧ predicateOf call = Some expected) in
  let both (predicate : Any) (expected : list Value) :=
    passes (HasManyQueryClient.fetchOrCreateMany persist relatedModel this
              payload predicate options w) expected
    ∧ passes (HasManyQueryClient.updateOrCreateMany persist relatedModel this
                payload predicate options w) expected in
  (∀ predicate,
     both predicate (HasManyQueryClient.normalizePredicate predicate ++ [key]))
  ∧ (∀ items, HasManyQueryClient.normalizePredicate (AArr items) = items)
  ∧ (∀ v, HasManyQueryClient.normalizePredicate (AVal v)
          = if truthy v then [v] else [])
  ∧ both (AVal VUndefined) [key]
  ∧ both (AVal (VStr "email")) [VStr "email"; key]
  ∧ both (AArr [VStr "email"]) [VStr "email"; key]
  ∧ both (AArr [key]) [key; key].
Proof.
  intros key passes both.
  assert (Hpass : ∀ related predicate,
    (∀ p fs o, predicateOf (related p fs o) = Some p) ->
    passes
      ((let* target := HasManyQueryClient.trxOrClient this in
        managedTransaction target (fun trx =>
          setTrx (HasManyQueryClient.parent this) trx ;;
          HasManyQueryClient.rowSave persist (HasManyQueryClient.parent this) ;;
          forEach (fun row =>
            hydrateForPersistance (HasManyQueryClient.relation this)
              (HasManyQueryClient.parent this) (AnObject row)) payload ;;
          let* rows := mapM HasManyQueryClient.readObject payload in
          HasManyQueryClient.callRelated relatedModel
            (related
               (HasManyQueryClient.normalizePredicate predicate ++ [key])
               rows (spreadOptions trx options)))) w)
      (HasManyQueryClient.normalizePredicate predicate ++ [key])).
  { intros related predicate Hrelated.
    destruct (batch_trace persist relatedModel this related payload predicate
                options w)
      as (before & store & after & Hbefore & Hafter
          & [[(e & He & Hwhy) Htr]
            |(store' & payloads & options' & stored' & Htr & _)]).
    - eexists. split; [exact Htr|]. split; [|split].
      + intros call s Hin. exfalso.
        rewrite !elem_of_app, list_elem_of_singleton in Hin.
        rewrite Forall_forall in Hbefore, Hafter.
        destruct Hin as [Hin|[Hin|Hin]]; [by apply Hbefore in Hin|done|
                                          by apply Hafter in Hin].
      + intros v Hv. fold key in He. rewrite Hv in He. discriminate.
      + intros stored resolved Hok Hkey. exfalso.
        destruct Hwhy as [Hno|(stored' & Hs & Hk)]; rewrite Hok in *;
          [discriminate|]. injection Hs as <-. rewrite Hkey in Hk.
        discriminate.
    - assert (Hin : RelatedCalled
          (related (HasManyQueryClient.normalizePredicate predicate ++ [key])
             payloads options') store'
        ∈ before
            ++ [RowSaved (HasManyQueryClient.parent this) store;
                RelatedCalled
                  (related
                     (HasManyQueryClient.normalizePredicate predicate ++ [key])
                     payloads options') store'] ++ after).
      { apply elem_of_app. right. apply elem_of_app. left.
        apply elem_of_cons. right. apply list_elem_of_singleton. reflexivity. }
      eexists. split; [exact Htr|]. split; [|split].
      + intros call s Hcall.
        rewrite !elem_of_app, elem_of_cons, list_elem_of_singleton in Hcall.
        rewrite Forall_forall in Hbefore, Hafter.
        destruct Hcall as [Hcall|[[Hcall|Hcall]|Hcall]];
          [by apply Hbefore in Hcall|done| |by apply Hafter in Hcall].
        injection Hcall as -> _. apply Hrelated.
      + intros _ _. eexists _, store'. exact Hin.
      + intros _ _ _ _. eexists _, store'. split; [exact Hin|].
        apply Hrelated. }
  assert (Hboth : ∀ predicate,
    both predicate (HasManyQueryClient.normalizePredicate predicate ++ [key])).
  { intros predicate. split.
    - by apply (Hpass RelatedFetchOrCreateMany).
    - by apply (Hpass RelatedUpdateOrCreateMany). }
  split; [exact Hboth|]. split; [done|]. split; [done|].
  split; [apply (Hboth (AVal VUndefined))|].
  split; [apply (Hboth (AVal (VStr "email")))|].
  split; [apply (Hboth (AArr [VStr "email"]))|].
  apply (Hboth (AArr [key])).
Qed.

(** C6, at [fetchOrCreateMany([a, b, c], "email")] through the user:
    the storage accepts the user and its [id] resolves, so the related
    model is called, with the fields [email] and [authorId]. *)
Lemma predicate_fields_are_normalized_then_scoped_witness :
  let outcome :=
    HasManyQueryClient.fetchOrCreateMany Fixture.persist Fixture.relatedModel
      Fixture.userPosts [1; 2; 3]%positive (AVal (VStr "email")) None
      Fixture.world in
  ∃ call store,
    RelatedCalled call store ∈ trace outcome.2
    ∧ predicateOf call = Some [VStr "email"; VStr "authorId"].
Proof.
  intros outcome.
  destruct (predicate_fields_are_normalized_then_scoped
              Fixture.persist Fixture.relatedModel Fixture.userPosts
              [1; 2; 3]%positive None Fixture.world) as (Hboth & _).
  destruct (Hboth (AVal (VStr "email")))
    as [(events & Htr & _ & _ & Hreached) _].
  destruct (Hreached {[ "id" := VNum 1 ]} (VNum 1))
    as (call & store & Hin & Hpredicate); [by vm_compute..|].
  exists call, store. split; [|exact Hpredicate].
  subst outcome. rewrite Htr. apply elem_of_app. by right.
Defined.

(** ** Builder factories and the query hook *)

(** C8. Each of the three static factories calls the relation's query
    hook, when one is registered, exactly once and with the builder it
    has just constructed: for [query] the builder bound to the row, for
    [eagerQuery] the builder bound to the rows and already flagged as a
    preload query, for [subQuery] the sub-query builder, which is bound
    to no parent. The factory returns the builder as the hook left it.
    When no hook is registered, the hook is not called and the factory
    returns the builder as constructed. *)
Theorem factories_call_the_query_hook_once
    (client : QueryClientContract) (relation : HasMany) (row : ref)
    (rows : HasManyQueryBuilder.Parent) :
  let plain :=
    HasManyQueryBuilder.new (HasManyQueryClient.knexQuery client) client
      (HasManyQueryBuilder.One row) relation false in
  let eager :=
    HasManyQueryClient.markPreload
      (HasManyQueryBuilder.new (HasManyQueryClient.knexQuery client) client
         rows relation false) in
  let sub :=
    HasManySubQueryBuilder.new (HasManyQueryClient.knexQuery client) client
      relation in
  match onQueryHook relation with
  | Some hook =>
      HasManyQueryClient.query client relation row
        = (HasManyQueryBuilder.withBase plain
             (hook (HasManyQueryBuilder.base plain)), [plain])
      ∧ HasManyQueryClient.eagerQuery client relation rows
        = (HasManyQueryBuilder.withBase eager
             (hook (HasManyQueryBuilder.base eager)), [eager])
      ∧ HasManyQueryClient.subQuery client relation
        = (HasManySubQueryBuilder.withBase sub
             (hook (HasManySubQueryBuilder.base sub)), [sub])
  | None =>
      HasManyQueryClient.query client relation row = (plain, [])
      ∧ HasManyQueryClient.eagerQuery client relation rows = (eager, [])
      ∧ HasManyQueryClient.subQuery client relation = (sub, [])
  end.
Proof.
  intros plain eager sub.
  unfold HasManyQueryClient.query, HasManyQueryClient.eagerQuery,
    HasManyQueryClient.subQuery, HasManyQueryClient.callQueryHook.
  by destruct (onQueryHook relation).
Qed.

(** C10. The instance method [query()] returns what the static [query]
    returns for the client, the relation and the parent row stored in
    the query client: the same builder, with the same calls of the
    hook. The builder is constructed bound to the stored parent row and
    relation, with the preload flag off, and the hook, if any, is
    called with it once; the returned builder is still bound to that
    parent and relation. *)
Theorem instance_query_is_the_static_query (this : HasManyQueryClient.t) :
  let constructed :=
    HasManyQueryBuilder.new
      (HasManyQueryClient.knexQuery (HasManyQueryClient.client this))
      (HasManyQueryClient.client this)
      (HasManyQueryBuilder.One (HasManyQueryClient.parent this))
      (HasManyQueryClient.relation this) false in
  HasManyQueryClient.instanceQuery this
    = HasManyQueryClient.query (HasManyQueryClient.client this)
        (HasManyQueryClient.relation this) (HasManyQueryClient.parent this)
  ∧ isRelatedPreloadQuery (HasManyQueryBuilder.base constructed) = false
  ∧ (HasManyQueryClient.instanceQuery this).2
    = match onQueryHook (HasManyQueryClient.relation this) with
      | Some _ => [constructed]
      | None => []
      end
  ∧ HasManyQueryBuilder.parent (HasManyQueryClient.instanceQuery this).1
    = HasManyQueryBuilder.One (HasManyQueryClient.parent this)
  ∧ HasManyQueryBuilder.relation (HasManyQueryClient.instanceQuery this).1
    = HasManyQueryClient.relation this.
Proof.
  intros constructed. split; [reflexivity|]. split; [reflexivity|].
  unfold HasManyQueryClient.instanceQuery, HasManyQueryClient.query,
    HasManyQueryClient.callQueryHook.
  by destruct (onQueryHook (HasManyQueryClient.relation this)).
Qed.

(** [fetchOrCreateMany([a, c], "email")] on the user: the call returns,
    the related model is asked to match on [email] and [authorId], and
    the two payload objects themselves now carry the user's id. *)
Example fetchOrCreateMany_on_the_user :
  let outcome :=
    HasManyQueryClient.fetchOrCreateMany Fixture.persist Fixture.relatedModel
      Fixture.userPosts [1; 3]%positive (AVal (VStr "email")) None
      Fixture.world in
  (∃ created, outcome.1 = Ok (RRows created))
  ∧ omap (fun e => match e with
                   | RelatedCalled call _ => predicateOf call
                   | _ => None
                   end) (trace outcome.2)
    = [[VStr "email"; VStr "authorId"]]
  ∧ getField (objects outcome.2 !!! 1%positive) "authorId" = VNum 1
  ∧ getField (objects outcome.2 !!! 3%positive) "authorId" = VNum 1
  ∧ objects outcome.2 !! 2%positive = Some (Fixture.titled VNull).
Proof.
  intros outcome. split; [eexists; by vm_compute|]. by vm_compute.
Qed.

(** * Further properties *)

(** ** The builder: missing keys, what a call may change, fresh queries *)

Lemma mapResult_all_thrown {A B} (f : A -> Result B) (xs : list A) (x : A)
    (e : Exception) :
  x ∈ xs -> f x = Thrown e -> (∀ y e', f y = Thrown e' -> e' = e) ->
  mapResult f xs = Thrown e.
Proof.
  intros Hin Hx Hsame. induction xs as [|y rest IH]; [by apply elem_of_nil in Hin|].
  simpl. destruct (f y) as [b|e'] eqn:Hy.
  - apply elem_of_cons in Hin as [Heq|Hin]; [subst; rewrite Hx in Hy; discriminate|].
    by rewrite (IH Hin).
  - f_equal. by eapply Hsame.
Qed.

Lemma mapResult_Ok_ext {A B} (f g : A -> Result B) (xs : list A)
    (ys : list B) :
  (∀ x y, f x = Ok y -> g x = Ok y) ->
  mapResult f xs = Ok ys -> mapResult g xs = Ok ys.
Proof.
  intros Hfg. revert ys. induction xs as [|x rest IH]; intros ys; simpl; [done|].
  destruct (f x) as [y|e] eqn:Hx; [|done].
  rewrite (Hfg _ _ Hx).
  destruct (mapResult f rest) as [ys'|e]; [|done].
  intros [= <-]. by rewrite (IH ys').
Qed.

Lemma getValue_action (f : Fields) (k : string) (relation : HasMany)
    (action action' : string) (v : Value) :
  getValue f k relation action = Ok v -> getValue f k relation action' = Ok v.
Proof. unfold getValue. by destruct (getField f k). Qed.

Section Builder.

Import HasManyQueryBuilder.

Variable queryAction : KnexBuilder -> string.

Lemma resolvedKeys_spec (rows : gmap ref LucidRow) (this : t) :
  resolvedKeys queryAction rows this
  = mapResult (fun model =>
      getValue (attributes (rows !!! model)) (localKey (relation this))
               (relation this) (queryAction (knexBuilder (base this))))
      (boundRows (parent this)).
Proof. unfold resolvedKeys, boundRows. by destruct (parent this). Qed.

(** What [applyConstraints] does when every key resolves, as one
    equation. *)
Lemma applyConstraints_resolved (rows : gmap ref LucidRow) (this : t)
    (values : list Value) :
  appliedConstraints (base this) = false ->
  resolvedKeys queryAction rows this = Ok values ->
  applyConstraints queryAction rows this
  = (Ok tt, addClause (markApplied this) (relationClause this values)).
Proof.
  intros Hfresh Hkeys. unfold applyConstraints, resolvedKeys, relationClause in *.
  rewrite Hfresh. destruct this as [b c p r i]; simpl in *.
  destruct p as [model|models]; simpl in *.
  - destruct (getValue _ _ _ _) as [value|err]; [|discriminate].
    by injection Hkeys as <-.
  - by rewrite Hkeys.
Qed.

(** The same keys resolve for any builder bound to the same rows
    through the same relation. *)
Lemma resolvedKeys_rebound (rows : gmap ref LucidRow) (this other : t)
    (values : list Value) :
  parent other = parent this -> relation other = relation this ->
  resolvedKeys queryAction rows this = Ok values ->
  resolvedKeys queryAction rows other = Ok values.
Proof.
  intros Hp Hr. rewrite !resolvedKeys_spec, Hp, Hr.
  apply mapResult_Ok_ext. intros model v. apply getValue_action.
Qed.

(** X1. On a builder whose constraints have not been applied and one of
    whose bound rows has an undefined or null local key,
    [applyConstraints()] throws the missing-key error having added no
    predicate, yet with the flag set: a later call, whatever the rows
    hold by then, returns at the guard and adds none either. *)
Theorem applyConstraints_without_key_stays_unconstrained
    (rows rows' : gmap ref LucidRow) (this : t) (model : ref) :
  appliedConstraints (base this) = false ->
  model ∈ boundRows (parent this) ->
  getField (attributes (rows !!! model)) (localKey (relation this)) = VUndefined
  ∨ getField (attributes (rows !!! model)) (localKey (relation this)) = VNull ->
  let failed := applyConstraints queryAction rows this in
  failed.1 = Thrown (MissingKeyError (queryAction (knexBuilder (base this)))
                       (relationName (relation this))
                       (localKey (relation this)))
  ∧ predicates failed.2 = predicates this
  ∧ appliedConstraints (base failed.2) = true
  ∧ applyConstraints queryAction rows' failed.2 = (Ok tt, failed.2).
Proof.
  intros Hfresh Hin Hmissing failed.
  assert (Hkeys : resolvedKeys queryAction rows this
    = Thrown (MissingKeyError (queryAction (knexBuilder (base this)))
                (relationName (relation this)) (localKey (relation this)))).
  { rewrite resolvedKeys_spec.
    apply mapResult_all_thrown with (x := model); [done| |].
    - unfold getValue. by destruct Hmissing as [-> | ->].
    - intros y e'. unfold getValue.
      destruct (getField (attributes (rows !!! y)) _); intros H;
        by inversion H. }
  assert (Hrun : failed
    = (Thrown (MissingKeyError (queryAction (knexBuilder (base this)))
                 (relationName (relation this)) (localKey (relation this))),
       markApplied this)).
  { subst failed. unfold applyConstraints, resolvedKeys in *.
    rewrite Hfresh. destruct this as [b c p r i]; simpl in *.
    destruct p as [m|ms]; simpl in *.
    - destruct (getValue _ _ _ _) as [value|err]; [discriminate|].
      by injection Hkeys as ->.
    - by rewrite Hkeys. }
  rewrite Hrun. simpl. split; [done|]. split; [done|]. split; [done|].
  reflexivity.
Qed.

(** X2. Whatever its outcome, [applyConstraints()] leaves the client,
    the bound parent, the relation, the eager flag, the preload flag
    and the method of the knex builder as they were, and
    [getRelationKeys()] answers the same. The statements collected so
    far stay, in order: either nothing is added, or one statement is
    added at the end, on the column [getRelationKeys()] names, and then
    the constraints had not been applied before. *)
Theorem applyConstraints_only_appends_on_the_relation_key
    (rows : gmap ref LucidRow) (this : t) :
  let after := (applyConstraints queryAction rows this).2 in
  client after = client this
  ∧ parent after = parent this
  ∧ relation after = relation this
  ∧ isEager after = isEager this
  ∧ isRelatedPreloadQuery (base after) = isRelatedPreloadQuery (base this)
  ∧ method (knexBuilder (base after)) = method (knexBuilder (base this))
  ∧ getRelationKeys after = getRelationKeys this
  ∧ (predicates after = predicates this
     ∨ ∃ clause,
         predicates after = predicates this ++ [clause]
         ∧ [clauseColumn clause] = getRelationKeys this
         ∧ appliedConstraints (base this) = false).
Proof.
  unfold applyConstraints.
  destruct (appliedConstraints (base this)) eqn:Hflag.
  { simpl. repeat (split; [done|]). by left. }
  destruct this as [b c p r i]; simpl in *.
  destruct p as [model|models]; simpl.
  - destruct (getValue _ _ _ _) as [value|err]; simpl.
    + repeat (split; [done|]). right. by eexists.
    + repeat (split; [done|]). by left.
  - destruct (mapResult _ _) as [values|err]; simpl.
    + repeat (split; [done|]). right. by eexists.
    + repeat (split; [done|]). by left.
Qed.

(** X3. The builder the constructor's callback hands to the user's
    function is bound to the same client, parent and relation as the
    builder it comes from, wraps the knex builder it was given, is
    never eager, and has its constraints still to apply, whether or not
    the outer builder has applied its own. So, when the parent's keys
    resolve, applying the constraints inside the user's function adds
    to the inner knex builder the very statement the outer builder adds
    to its own. *)
Theorem wrapped_callback_keeps_the_relation_scope
    (rows : gmap ref LucidRow) (this : t) (inner : KnexBuilder)
    (values : list Value) :
  resolvedKeys queryAction rows this = Ok values ->
  let handed := wrapCallback this (fun q => q) inner in
  let constrained :=
    wrapCallback this (fun q => (applyConstraints queryAction rows q).2) inner in
  client handed = client this
  ∧ parent handed = parent this
  ∧ relation handed = relation this
  ∧ knexBuilder (base handed) = inner
  ∧ isEager handed = false
  ∧ appliedConstraints (base handed) = false
  ∧ predicates constrained = statements inner ++ [relationClause this values]
  ∧ (appliedConstraints (base this) = false ->
     predicates (applyConstraints queryAction rows this).2
     = predicates this ++ [relationClause this values]).
Proof.
  intros Hkeys handed constrained. repeat (split; [done|]). split.
  - subst constrained. unfold wrapCallback.
    rewrite (applyConstraints_resolved rows _ values); [done|done|].
    by apply (resolvedKeys_rebound rows this).
  - intros Hfresh. by rewrite (applyConstraints_resolved rows this values).
Qed.

(** X4. A relation without a query hook: the builder [query] returns,
    once its constraints are applied, holds exactly one statement, the
    equality on the parent's key, and is no preload query; the builder
    [eagerQuery] returns for a sequence of rows holds exactly one
    statement, the membership in the distinct keys of all the rows, and
    is a preload query; given a single row instead, [eagerQuery] gives
    the equality, flagged as preload; and for an empty sequence the
    constraints never throw and the one statement is the membership in
    the empty list. *)
Theorem fresh_queries_hold_exactly_the_relation_predicate
    (client : QueryClientContract) (relation : HasMany)
    (rows : gmap ref LucidRow) :
  onQueryHook relation = None ->
  let key := foreignCastAsKey relation in
  let constrained (query : t) (statement : Clause) (preload : bool) :=
    ∃ after,
      applyConstraints queryAction rows query = (Ok tt, after)
      ∧ predicates after = [statement]
      ∧ isRelatedPreloadQuery (base after) = preload in
  (∀ row values,
     resolvedKeys queryAction rows
       (HasManyQueryClient.query client relation row).1 = Ok values ->
     ∃ value, values = [value]
       ∧ constrained (HasManyQueryClient.query client relation row).1
           (Where key value) false)
  ∧ (∀ models values,
       resolvedKeys queryAction rows
         (HasManyQueryClient.eagerQuery client relation (Many models)).1
       = Ok values ->
       constrained
         (HasManyQueryClient.eagerQuery client relation (Many models)).1
         (WhereIn key (unique values)) true)
  ∧ (∀ row values,
       resolvedKeys queryAction rows
         (HasManyQueryClient.eagerQuery client relation (One row)).1
       = Ok values ->
       ∃ value, values = [value]
         ∧ constrained
             (HasManyQueryClient.eagerQuery client relation (One row)).1
             (Where key value) true)
  ∧ constrained (HasManyQueryClient.eagerQuery client relation (Many [])).1
      (WhereIn key []) true.
Proof.
  intros Hhook key constrained.
  unfold HasManyQueryClient.query, HasManyQueryClient.eagerQuery,
    HasManyQueryClient.callQueryHook. rewrite Hhook. simpl.
  assert (Hone : ∀ values q,
    (∃ row, parent q = One row) ->
    resolvedKeys queryAction rows q = Ok values -> ∃ value, values = [value]).
  { intros values q [row Hp]. unfold resolvedKeys. rewrite Hp. simpl.
    destruct (getValue _ _ _ _); [|done]. intros [= <-]. eauto. }
  split; [|split; [|split]].
  - intros row values Hkeys.
    pose proof Hkeys as Hsingle.
    apply Hone in Hsingle as [value ->]; [|by exists row].
    exists value. split; [done|]. eexists.
    rewrite (applyConstraints_resolved rows _ [value]); done.
  - intros models values Hkeys. eexists.
    rewrite (applyConstraints_resolved rows _ values); done.
  - intros row values Hkeys.
    pose proof Hkeys as Hsingle.
    apply Hone in Hsingle as [value ->]; [|by exists row].
    exists value. split; [done|]. eexists.
    rewrite (applyConstraints_resolved rows _ [value]); done.
  - eexists. rewrite (applyConstraints_resolved rows _ []); done.
Qed.

End Builder.

(** X1, at a builder bound to a post that has no [id]. *)
Lemma applyConstraints_without_key_stays_unconstrained_witness :
  let failed :=
    HasManyQueryBuilder.applyConstraints method (rows Fixture.world)
      Fixture.postBuilder in
  failed.1 = Thrown (MissingKeyError "select" "posts" "id")
  ∧ HasManyQueryBuilder.predicates failed.2 = []
  ∧ appliedConstraints (HasManyQueryBuilder.base failed.2) = true
  ∧ HasManyQueryBuilder.applyConstraints method Fixture.fourUsers failed.2
    = (Ok tt, failed.2).
Proof.
  apply (applyConstraints_without_key_stays_unconstrained method
           (rows Fixture.world) Fixture.fourUsers Fixture.postBuilder
           2%positive).
  - reflexivity.
  - apply list_elem_of_singleton. reflexivity.
  - left. by vm_compute.
Defined.

(** X3, at the eager builder over the four users. *)
Lemma wrapped_callback_keeps_the_relation_scope_witness :
  HasManyQueryBuilder.predicates
    (HasManyQueryBuilder.wrapCallback Fixture.eagerBuilder
       (fun q =>
          (HasManyQueryBuilder.applyConstraints method Fixture.fourUsers q).2)
       (HasManyQueryClient.knexQuery Fixture.connection))
  = [WhereIn "author_id" [VNum 1; VNum 2; VNum 3]]
  ∧ HasManyQueryBuilder.isEager
      (HasManyQueryBuilder.wrapCallback Fixture.eagerBuilder (fun q => q)
         (HasManyQueryClient.knexQuery Fixture.connection)) = false.
Proof.
  destruct (wrapped_callback_keeps_the_relation_scope method Fixture.fourUsers
              Fixture.eagerBuilder
              (HasManyQueryClient.knexQuery Fixture.connection)
              [VNum 1; VNum 2; VNum 2; VNum 3])
    as (_ & _ & _ & _ & Heager & _ & Hinner & _).
  - by vm_compute.
  - split; [exact Hinner|exact Heager].
Defined.

(** X4, at an eager query of the posts of the four users. *)
Lemma fresh_queries_hold_exactly_the_relation_predicate_witness :
  ∃ after,
    HasManyQueryBuilder.applyConstraints method Fixture.fourUsers
      (HasManyQueryClient.eagerQuery Fixture.connection Fixture.posts
         (HasManyQueryBuilder.Many [1; 2; 3; 4]%positive)).1
    = (Ok tt, after)
    ∧ HasManyQueryBuilder.predicates after
      = [WhereIn "author_id" [VNum 1; VNum 2; VNum 3]]
    ∧ isRelatedPreloadQuery (HasManyQueryBuilder.base after) = true.
Proof.
  destruct (fresh_queries_hold_exactly_the_relation_predicate method
              Fixture.connection Fixture.posts Fixture.fourUsers)
    as (_ & Hmany & _ & _).
  - reflexivity.
  - apply (Hmany [1; 2; 3; 4]%positive [VNum 1; VNum 2; VNum 2; VNum 3]).
    by vm_compute.
Defined.


(** ** When the storage refuses the parent, and when its key is missing *)

(** X13. When the storage refuses the parent's own save, every write
    operation throws that failure and has done nothing else: the save
    of the parent is its only persistence step, no payload is copied or
    hydrated, no row other than the parent is touched (the parent has
    only got its transaction slot set), and the committed data is as it
    was; under an inherited transaction, the parent's or the client's,
    the database is untouched. *)
Theorem refused_parent_stops_the_operation
    (persist : Database.t -> LucidRow -> Result Fields)
    (relatedModel : RelatedCall -> gmap ref LucidRow -> Database.t ->
                    Result Returned * gmap ref LucidRow * Database.t)
    (this : HasManyQueryClient.t) (op : HasManyQueryClient.WriteOperation)
    (w : World) (e : Exception) :
  persist (db (worldAtWork this w)) (parentAtWork this w) = Thrown e ->
  let parent := HasManyQueryClient.parent this in
  let outcome := HasManyQueryClient.run persist relatedModel this op w in
  outcome.1 = Thrown e
  ∧ objects outcome.2 = objects w
  ∧ rows outcome.2 = <[parent := parentAtWork this w]> (rows w)
  ∧ Database.committed (db outcome.2) = Database.committed (db w)
  ∧ (is_Some (inheritedTrx this w) -> db outcome.2 = db w)
  ∧ ∃ before after,
      trace outcome.2
        = trace w ++ before ++ [RowSaved parent (rows outcome.2)] ++ after
      ∧ Forall (fun e => ¬ isPersistence e) before
      ∧ Forall (fun e => ¬ isPersistence e) after.
Proof.
  intros Hno parent outcome. subst outcome.
  rewrite (run_parent_refused persist relatedModel this op e w Hno).
  unfold closed, afterRefusal, worldAtWork, parentAtWork, handleOf.
  fold parent. destruct (inheritedTrx this w) as [h|]; simpl.
  - repeat (split; [done|]). by exists [], [].
  - split; [done|]. split; [done|]. split; [done|]. split; [done|].
    split; [by intros [? ?]|].
    eexists [_], [_]. rewrite <- !app_assoc. split; [reflexivity|].
    split; repeat constructor; by intros [].
Qed.

(** X13, at [create] of a post through a user the storage refuses. *)
Lemma refused_parent_stops_the_operation_witness :
  let outcome :=
    HasManyQueryClient.run Fixture.persist Fixture.relatedModel
      Fixture.userPosts (HasManyQueryClient.Create 1%positive None)
      Fixture.worldWithUntitledUser in
  outcome.1 = Thrown (ConstraintViolationError "title")
  ∧ objects outcome.2 = objects Fixture.worldWithUntitledUser
  ∧ Database.committed (db outcome.2) = [].
Proof.
  destruct (refused_parent_stops_the_operation Fixture.persist
              Fixture.relatedModel Fixture.userPosts
              (HasManyQueryClient.Create 1%positive None)
              Fixture.worldWithUntitledUser
              (ConstraintViolationError "title"))
    as (Hthrown & Hobjects & _ & Hcommitted & _).
  - by vm_compute.
  - split; [exact Hthrown|]. split; [exact Hobjects|exact Hcommitted].
Defined.

Section MissingKey.

Import HasManyQueryClient.

Variable persist : Database.t -> LucidRow -> Result Fields.
Variable relatedModel :
  RelatedCall -> gmap ref LucidRow -> Database.t ->
  Result Returned * gmap ref LucidRow * Database.t.
Variable this : t.

Lemma hydrate_without_key (target : Persistable) (e : Exception) (w : World) :
  getValue (attributes (rows w !!! parent this)) (localKey (relation this))
           (relation this) "persist" = Thrown e ->
  hydrateForPersistance (relation this) (parent this) target w = (Thrown e, w).
Proof. intros Hkey. unfold hydrateForPersistance. by rewrite Hkey. Qed.

Lemma objects_withCopy (fields : Fields) (w : World) :
  objects w ⊆ objects (withCopy fields w).
Proof. apply insert_subseteq, not_elem_of_dom, is_fresh. Qed.

(** With something to hydrate and no key to hydrate it with, the steps
    of an operation throw at the first hydration. *)
Lemma steps_without_key (op : WriteOperation) (h : nat) (e : Exception)
    (w : World) :
  hydrates op = true ->
  getValue (attributes (rows w !!! parent this)) (localKey (relation this))
           (relation this) "persist" = Thrown e ->
  (stepsOf persist relatedModel this op h w).1 = Thrown e
  ∧ rows (stepsOf persist relatedModel this op h w).2 = rows w
  ∧ db (stepsOf persist relatedModel this op h w).2 = db w
  ∧ trace (stepsOf persist relatedModel this op h w).2 = trace w
  ∧ objects w ⊆ objects (stepsOf persist relatedModel this op h w).2.
Proof.
  intros Hsome Hkey.
  assert (Hcopy : ∀ source,
    hydrateForPersistance (relation this) (parent this)
      (AnObject (fresh (dom (objects w))))
      (withCopy (objects w !!! source) w)
    = (Thrown e, withCopy (objects w !!! source) w)).
  { intros source. by apply hydrate_without_key. }
  destruct op as [related|related|values o|values o|search p o|search p o
                  |payload q o|payload q o]; simpl in Hsome.
  - unfold stepsOf, bind. rewrite (hydrate_without_key _ e w Hkey). done.
  - apply bool_decide_eq_true in Hsome. destruct related as [|r rs]; [done|].
    unfold stepsOf, forEach, bind.
    rewrite (hydrate_without_key _ e w Hkey). done.
  - unfold stepsOf, bind, objectAssign. fold (withCopy (objects w !!! values) w).
    rewrite Hcopy. repeat (split; [done|]). apply objects_withCopy.
  - apply bool_decide_eq_true in Hsome. destruct values as [|v vs]; [done|].
    unfold stepsOf, mapM, bind, objectAssign.
    fold (withCopy (objects w !!! v) w).
    rewrite Hcopy. repeat (split; [done|]). apply objects_withCopy.
  - unfold stepsOf, bind, objectAssign. fold (withCopy (objects w !!! search) w).
    rewrite Hcopy. repeat (split; [done|]). apply objects_withCopy.
  - unfold stepsOf, bind, objectAssign. fold (withCopy (objects w !!! search) w).
    rewrite Hcopy. repeat (split; [done|]). apply objects_withCopy.
  - apply bool_decide_eq_true in Hsome. destruct payload as [|r rs]; [done|].
    unfold stepsOf, forEach, bind.
    rewrite (hydrate_without_key _ e w Hkey). done.
  - apply bool_decide_eq_true in Hsome. destruct payload as [|r rs]; [done|].
    unfold stepsOf, forEach, bind.
    rewrite (hydrate_without_key _ e w Hkey). done.
Qed.

(** X6. When the parent's local key is still undefined or null in the
    fields its own save leaves it with, every write operation that has a
    row or payload to hydrate throws the missing-key error of the
    persist action after the parent has been saved and before anything
    else is persisted: the parent's save is the only persistence step,
    no other row is touched, the caller's objects are as they were, and
    the committed data is as it was. Under an inherited transaction,
    the parent's or the client's, the parent's write stays pending in
    it; under a transaction of its own it is rolled back. *)
Theorem missing_key_throws_after_the_parent_is_saved
    (op : WriteOperation) (w : World) (stored : Fields) :
  hydrates op = true ->
  persist (db (worldAtWork this w)) (parentAtWork this w) = Ok stored ->
  getField stored (localKey (relation this)) = VUndefined
  ∨ getField stored (localKey (relation this)) = VNull ->
  let outcome := run persist relatedModel this op w in
  outcome.1 = Thrown (MissingKeyError "persist" (relationName (relation this))
                        (localKey (relation this)))
  ∧ rows outcome.2
    = <[parent this := {| attributes := stored;
                          trx := Some (handleOf this w) |}]> (rows w)
  ∧ (∀ o f, objects w !! o = Some f -> objects outcome.2 !! o = Some f)
  ∧ Database.committed (db outcome.2) = Database.committed (db w)
  ∧ match inheritedTrx this w with
    | Some inherited =>
        Database.pendingOf (db outcome.2) inherited
        = Database.pendingOf (db w) inherited
            ++ [{| Database.writtenRow := parent this;
                   Database.writtenFields := stored |}]
    | None =>
        Database.pending (db outcome.2) !! Database.nextHandle (db w) = None
    end
  ∧ ∃ before store after,
      trace outcome.2 = trace w ++ before ++ [RowSaved (parent this) store]
                          ++ after
      ∧ Forall (fun e => ¬ isPersistence e) before
      ∧ Forall (fun e => ¬ isPersistence e) after.
Proof.
  intros Hsome Hok Hmissing outcome. subst outcome.
  rewrite (run_parent_saved persist relatedModel this op stored w Hok).
  set (e := MissingKeyError "persist" (relationName (relation this))
              (localKey (relation this))).
  destruct (steps_without_key op (handleOf this w) e
              (afterParentSave this stored w) Hsome)
    as (Hthrown & Hrows & Hdb & Htrace & Hobjects).
  { unfold afterParentSave, afterSave. simpl. rewrite lookup_total_insert_eq.
    simpl. unfold getValue. by destruct Hmissing as [-> | ->]. }
  set (inner := stepsOf persist relatedModel this op (handleOf this w)
                  (afterParentSave this stored w)) in *.
  assert (Hrows2 : rows (afterParentSave this stored w)
    = <[parent this := {| attributes := stored;
                          trx := Some (handleOf this w) |}]> (rows w)).
  { unfold afterParentSave, afterSave. simpl. by rewrite rows_worldAtWork. }
  assert (Hobjects2 : objects (afterParentSave this stored w) = objects w).
  { unfold afterParentSave, afterSave. simpl. by rewrite objects_worldAtWork. }
  rewrite Hrows2 in Hrows. rewrite Hobjects2 in Hobjects.
  unfold afterParentSave, afterSave in Hdb, Htrace. simpl in Hdb, Htrace.
  clear Hrows2 Hobjects2.
  clearbody inner. destruct inner as [r inner].
  simpl in Hthrown, Hrows, Hdb, Htrace, Hobjects. subst r. simpl.
  split; [done|].
  unfold closed, worldAtWork, handleOf in *.
  destruct (inheritedTrx this w) as [h|]; simpl in *.
  - split; [done|]. split; [intros o f Ho; by eapply lookup_weaken|].
    rewrite Hdb, Htrace. simpl. split; [done|].
    split; [apply pendingOf_write|].
    by eexists [], _, [].
  - split; [done|]. split; [intros o f Ho; by eapply lookup_weaken|].
    rewrite Hdb, Htrace. simpl. split; [done|].
    split; [apply lookup_delete_eq|].
    eexists [_], _, [_]. rewrite <- !app_assoc. split; [reflexivity|].
    split; repeat constructor; by intros [].
Qed.

End MissingKey.

(** X6, at [save] of a post through a user that has no [id] and gets
    none from a storage that stores rows as they are. *)
Lemma missing_key_throws_after_the_parent_is_saved_witness :
  let outcome :=
    HasManyQueryClient.run Fixture.persistAsIs Fixture.relatedModel
      Fixture.userPosts (HasManyQueryClient.Save 2%positive)
      Fixture.worldWithAnonymousUser in
  outcome.1 = Thrown (MissingKeyError "persist" "posts" "id")
  ∧ Database.committed (db outcome.2) = []
  ∧ rows outcome.2 !! 2%positive
    = rows Fixture.worldWithAnonymousUser !! 2%positive.
Proof.
  destruct (missing_key_throws_after_the_parent_is_saved Fixture.persistAsIs
              Fixture.relatedModel Fixture.userPosts
              (HasManyQueryClient.Save 2%positive)
              Fixture.worldWithAnonymousUser ∅)
    as (Hthrown & Hrows & _ & Hcommitted & _).
  - reflexivity.
  - by vm_compute.
  - left. by vm_compute.
  - split; [exact Hthrown|]. split; [exact Hcommitted|].
    rewrite Hrows. by vm_compute.
Defined.

(** ** One row and many, empty payloads, copies *)

(** X5. [save(related)] does exactly what [saveMany([related])] does:
    the same outcome and the same final world, from every start. *)
Theorem save_is_saveMany_of_one
    (persist : Database.t -> LucidRow -> Result Fields)
    (this : HasManyQueryClient.t) (related : ref) (w : World) :
  HasManyQueryClient.save persist this related w
  = HasManyQueryClient.saveMany persist this [related] w.
Proof. apply save_as_saveMany. Qed.

(** X8. With nothing to save or to hydrate, the parent's local key is
    never resolved, so it may be missing. Once the storage has accepted
    the parent, [saveMany([])] returns, having saved the parent alone;
    [createMany([])] calls the related model with no values;
    [fetchOrCreateMany([])] and [updateOrCreateMany([])] call it with no
    payload and with the predicate fields, the foreign key last. In the
    three, the outcome is the related model's. *)
Theorem empty_payloads_need_no_key
    (persist : Database.t -> LucidRow -> Result Fields)
    (relatedModel : RelatedCall -> gmap ref LucidRow -> Database.t ->
                    Result Returned * gmap ref LucidRow * Database.t)
    (this : HasManyQueryClient.t) (w : World) (stored : Fields) :
  persist (db (worldAtWork this w)) (parentAtWork this w) = Ok stored ->
  let h := handleOf this w in
  let saved := afterParentSave this stored w in
  let key := VStr (foreignKey (HasManyQueryClient.relation this)) in
  let delegated (op : HasManyQueryClient.WriteOperation) (call : RelatedCall) :=
    HasManyQueryClient.run persist relatedModel this op w
    = ((HasManyQueryClient.callRelated relatedModel call saved).1,
       closed this w (HasManyQueryClient.callRelated relatedModel call saved).1
         (HasManyQueryClient.callRelated relatedModel call saved).2) in
  HasManyQueryClient.run persist relatedModel this
    (HasManyQueryClient.SaveMany []) w
  = (Ok RVoid, closed this w (Ok RVoid) saved)
  ∧ (∀ options,
       delegated (HasManyQueryClient.CreateMany [] options)
         (RelatedCreateMany [] (spreadOptions h options)))
  ∧ (∀ predicate options,
       delegated (HasManyQueryClient.FetchOrCreateMany [] predicate options)
         (RelatedFetchOrCreateMany
            (HasManyQueryClient.normalizePredicate predicate ++ [key]) []
            (spreadOptions h options)))
  ∧ (∀ predicate options,
       delegated (HasManyQueryClient.UpdateOrCreateMany [] predicate options)
         (RelatedUpdateOrCreateMany
            (HasManyQueryClient.normalizePredicate predicate ++ [key]) []
            (spreadOptions h options))).
Proof.
  intros Hok h saved key delegated.
  split; [|split; [|split]]; intros; unfold delegated;
    by rewrite (run_parent_saved persist relatedModel this _ stored w Hok).
Qed.

(** X8, at [fetchOrCreateMany([], "email")] through a user without any
    key, on a storage that generates none. *)
Lemma empty_payloads_need_no_key_witness :
  (HasManyQueryClient.run Fixture.persistAsIs Fixture.relatedModel
     Fixture.userPosts
     (HasManyQueryClient.FetchOrCreateMany [] (AVal (VStr "email")) None)
     Fixture.worldWithAnonymousUser).1
  = Ok (RRows []).
Proof.
  destruct (empty_payloads_need_no_key Fixture.persistAsIs
              Fixture.relatedModel Fixture.userPosts
              Fixture.worldWithAnonymousUser ∅)
    as (_ & _ & Hfetch & _); [by vm_compute|].
  rewrite (Hfetch (AVal (VStr "email")) None). by vm_compute.
Defined.

(** X9. [firstOrCreate] and [updateOrCreate] leave every object there
    was before the call with the fields it had, whatever the outcome:
    the search object is copied before the foreign key is written, and
    the save or update payload is only read. [save] and [saveMany] do
    not touch the objects at all. *)
Theorem search_and_payload_objects_are_left_alone
    (persist : Database.t -> LucidRow -> Result Fields)
    (relatedModel : RelatedCall -> gmap ref LucidRow -> Database.t ->
                    Result Returned * gmap ref LucidRow * Database.t)
    (this : HasManyQueryClient.t) (w : World) :
  let unchanged (outcome : Result Returned * World) :=
    ∀ o f, objects w !! o = Some f -> objects outcome.2 !! o = Some f in
  (∀ search savePayload options,
     unchanged (HasManyQueryClient.firstOrCreate persist relatedModel this
                  search savePayload options w))
  ∧ (∀ search updatePayload options,
       unchanged (HasManyQueryClient.updateOrCreate persist relatedModel this
                    search updatePayload options w))
  ∧ (∀ related,
       objects (HasManyQueryClient.save persist this related w).2 = objects w)
  ∧ (∀ related,
       objects (HasManyQueryClient.saveMany persist this related w).2
       = objects w).
Proof.
  intros unchanged.
  assert (Hframe : ∀ (callback : nat -> M Returned),
    (∀ h, keeps (fun w' => objects w ⊆ objects w') (fun _ => True)
            (callback h)) ->
    unchanged
      ((let* target := HasManyQueryClient.trxOrClient this in
        managedTransaction target callback) w)).
  { intros callback Hkeeps o f Ho.
    destruct (managed_frame this callback w)
      as (h & w0 & _ & _ & _ & _ & Hobj0 & _ & _ & _ & _ & _ & Hobj).
    rewrite Hobj.
    destruct (Hkeeps h w0) as (_ & _ & _ & Hsub); [by rewrite Hobj0|].
    eapply lookup_weaken; eauto. }
  assert (Hmany : ∀ related,
    objects (HasManyQueryClient.saveMany persist this related w).2 = objects w).
  { intros related.
    by destruct (saveMany_trace persist this related w)
      as (? & ? & ? & ? & ? & _ & _ & _ & _ & _ & Hobj & _). }
  split; [|split; [|split; [|exact Hmany]]].
  - intros search savePayload options. apply Hframe. intros h.
    apply keeps_bind; [by apply keeps_silent|]. intros _.
    apply keeps_bind; [apply rowSave_leaves_objects|]. intros _.
    apply (copy_leaves_objects this). intros copy.
    apply keeps_bind; [by apply keeps_silent|]. intros f.
    apply keeps_bind.
    { destruct savePayload as [p|]; [|apply keeps_ret].
      apply keeps_bind; [by apply keeps_silent|]. intros g. apply keeps_ret. }
    intros payload. apply callRelated_leaves_objects.
  - intros search updatePayload options. apply Hframe. intros h.
    apply keeps_bind; [by apply keeps_silent|]. intros _.
    apply keeps_bind; [apply rowSave_leaves_objects|]. intros _.
    apply (copy_leaves_objects this). intros copy.
    apply keeps_bind; [by apply keeps_silent|]. intros f.
    apply keeps_bind; [by apply keeps_silent|]. intros g.
    apply callRelated_leaves_objects.
  - intros related. rewrite save_as_saveMany. apply Hmany.
Qed.

(** ** What reaches the related model: options *)

Section Forwarding.

Import HasManyQueryClient.

Variable persist : Database.t -> LucidRow -> Result Fields.
Variable relatedModel :
  RelatedCall -> gmap ref LucidRow -> Database.t ->
  Result Returned * gmap ref LucidRow * Database.t.
Variable this : t.
Variable h : nat.
Variable options : option ModelAssignOptions.

Local Abbreviation I := (fun _ : World => True) (only parsing).
Local Abbreviation P := (forwards h options) (only parsing).

Lemma hydrate_trace (target : Persistable) (w : World) :
  trace (hydrateForPersistance (relation this) (parent this) target w).2
  = trace w.
Proof.
  unfold hydrateForPersistance.
  destruct (getValue _ _ _ _); [|done]. by destruct target.
Qed.

Lemma rowSave_forwards (row : ref) : keeps I P (rowSave persist row).
Proof.
  intros w _. exists [RowSaved row (rows w)]. unfold rowSave. simpl.
  destruct (persist _ _); simpl; (split; [done|]);
    (split; [by repeat constructor|done]).
Qed.

Lemma callRelated_forwards (call : RelatedCall) :
  callOptions call = spreadOptions h options ->
  keeps I P (callRelated relatedModel call).
Proof.
  intros Hcall w _. exists [RelatedCalled call (rows w)].
  unfold callRelated. simpl.
  destruct (relatedModel _ _ _) as [[r rs] d]. simpl.
  split; [done|]. split; [by repeat constructor|done].
Qed.

End Forwarding.

Local Ltac forward_steps :=
  repeat first
    [ apply keeps_ret
    | apply rowSave_forwards
    | apply callRelated_forwards; reflexivity
    | apply keeps_forEach; intros ?
    | apply keeps_mapM; intros ?
    | apply keeps_bind; [|intros ?]
    | apply keeps_silent; [intros ?; first [apply hydrate_trace|reflexivity]
                          |done] ].

Lemma steps_forward
    (persist : Database.t -> LucidRow -> Result Fields)
    (relatedModel : RelatedCall -> gmap ref LucidRow -> Database.t ->
                    Result Returned * gmap ref LucidRow * Database.t)
    (this : HasManyQueryClient.t) (op : HasManyQueryClient.WriteOperation)
    (h : nat) :
  keeps (fun _ => True) (forwards h (optionsOf op))
    (setTrx (HasManyQueryClient.parent this) h ;;
     HasManyQueryClient.rowSave persist (HasManyQueryClient.parent this) ;;
     stepsOf persist relatedModel this op h).
Proof.
  destruct op as [| | | |? [?|] ?| | |]; unfold stepsOf, optionsOf;
    forward_steps.
Qed.



(** ** A failure under an inherited transaction *)

Section Inherited.

Import HasManyQueryClient.

Variable persist : Database.t -> LucidRow -> Result Fields.
Variable this : t.
Variable h : nat.

Local Abbreviation saveChild := (fun row : ref =>
  hydrateForPersistance (relation this) (parent this) (ARow row) ;;
  setTrx row h ;;
  rowSave persist row) (only parsing).

(** What the loop of [saveMany] has written when it stops. *)
Lemma saveMany_loop_written (related : list ref) (w : World) :
  let outcome := forEach saveChild related w in
  ∃ written,
    db outcome.2 = writeAll h (db w) written
    ∧ map Database.writtenRow written `prefix_of` related
    ∧ (∀ e, outcome.1 = Thrown e -> length written < length related).
Proof.
  revert w. induction related as [|row rest IH]; intros w; simpl.
  - exists []. split; [done|]. split; [done|]. intros e [=].
  - assert (Hstep : (saveChild row ;; forEach saveChild rest) w
      = match saveChild row w with
        | (Ok _, w1) => forEach saveChild rest w1
        | (Thrown e, w1) => (Thrown e, w1)
        end) by reflexivity.
    rewrite Hstep. clear Hstep.
    destruct (saveChild_spec persist this h row w)
      as [(e & Hthrow & _)|(store & w1 & _ & _
      & _ & [(e & Hrun & Hdb & _)|(f & Hrun & Hdb)])];
      [rewrite Hthrow|rewrite Hrun|rewrite Hrun]; simpl.
    + exists []. split; [done|]. split; [apply prefix_nil|]. intros; cbn; lia.
    + exists []. split; [done|]. split; [apply prefix_nil|]. intros; cbn; lia.
    + destruct (IH w1) as (written & Hdb' & Hpre & Hless).
      exists ({| Database.writtenRow := row; Database.writtenFields := f |}
                :: written).
      split; [by rewrite Hdb', Hdb|]. split; [by apply prefix_cons|].
      intros e He. specialize (Hless e He). simpl. lia.
Qed.

End Inherited.

(** X12. When [saveMany] inherits a transaction, the parent's or the
    client's, and throws, nothing is undone: the parent and the rows
    saved before the failure stay among the pending writes of that
    transaction, after the ones it held, in the order parent, then rows
    as given; they are fewer than the parent and all rows together; and
    nothing is committed. What becomes of them is left to the owner of
    the transaction. *)
Theorem inherited_failure_leaves_the_earlier_writes_pending
    (persist : Database.t -> LucidRow -> Result Fields)
    (this : HasManyQueryClient.t) (related : list ref) (w : World)
    (h : nat) (e : Exception) :
  inheritedTrx this w = Some h ->
  (HasManyQueryClient.saveMany persist this related w).1 = Thrown e ->
  let after := db (HasManyQueryClient.saveMany persist this related w).2 in
  ∃ written,
    Database.pendingOf after h = Database.pendingOf (db w) h ++ written
    ∧ Database.committed after = Database.committed (db w)
    ∧ map Database.writtenRow written
        `prefix_of` HasManyQueryClient.parent this :: related
    ∧ length written < S (length related)
    ∧ after = writeAll h (db w) written.
Proof.
  intros Hslot. cbv zeta.
  pose (noModel := fun (_ : RelatedCall) (rs : gmap ref LucidRow)
                       (d : Database.t) => (Ok RVoid, rs, d)).
  change (HasManyQueryClient.saveMany persist this related w)
    with (HasManyQueryClient.run persist noModel this
            (HasManyQueryClient.SaveMany related) w).
  assert (Hh : handleOf this w = h) by (unfold handleOf; by rewrite Hslot).
  assert (Hw : worldAtWork this w = w) by (unfold worldAtWork; by rewrite Hslot).
  assert (Hwritten : ∀ written,
    map Database.writtenRow written
      `prefix_of` HasManyQueryClient.parent this :: related ->
    length written < S (length related) ->
    ∃ written',
      Database.pendingOf (writeAll h (db w) written) h
        = Database.pendingOf (db w) h ++ written'
      ∧ Database.committed (writeAll h (db w) written)
        = Database.committed (db w)
      ∧ map Database.writtenRow written'
          `prefix_of` HasManyQueryClient.parent this :: related
      ∧ length written' < S (length related)
      ∧ writeAll h (db w) written = writeAll h (db w) written').
  { intros written Hpre Hless. exists written.
    by rewrite pendingOf_writeAll, committed_writeAll. }
  destruct (persist (db (worldAtWork this w)) (parentAtWork this w))
    as [stored|e'] eqn:Hparent.
  - rewrite (run_parent_saved persist noModel this _ stored w Hparent).
    unfold closed. rewrite Hslot. cbn [fst snd].
    unfold afterParentSave. rewrite Hh, Hw.
    unfold stepsOf.
    set (loop := forEach _ related).
    assert (Hrun : ∀ w1, (loop ;; ret RVoid) w1
      = match loop w1 with
        | (Ok _, w2) => (Ok RVoid, w2)
        | (Thrown e, w2) => (Thrown e, w2)
        end) by reflexivity.
    rewrite Hrun. clear Hrun.
    destruct (saveMany_loop_written persist this h related
                (afterSave (HasManyQueryClient.parent this) h stored w))
      as (written & Hdb & Hpre & Hless).
    fold loop in Hdb, Hless.
    destruct (loop _) as [[[]|e''] w2]; cbn [fst snd] in *; [done|].
    intros _. rewrite Hdb.
    apply (Hwritten
      ({| Database.writtenRow := HasManyQueryClient.parent this;
          Database.writtenFields := stored |} :: written)).
    + simpl. by apply prefix_cons.
    + simpl. specialize (Hless e'' eq_refl). lia.
  - rewrite (run_parent_refused persist noModel this _ e' w Hparent).
    unfold closed. rewrite Hslot. cbn [fst snd]. intros _.
    rewrite Hw. apply (Hwritten []); [apply prefix_nil|simpl; lia].
Qed.

(** X12, on the user inside transaction 7: [saveMany] of the posts "a",
    (untitled) and "c" throws at the second; the user and post "a" stay
    pending under 7. *)
Lemma inherited_failure_leaves_the_earlier_writes_pending_witness :
  ∃ written,
    Database.pendingOf
      (db (HasManyQueryClient.saveMany Fixture.persist Fixture.userPosts
             [2; 3; 4]%positive Fixture.worldInTransaction).2) 7
    = Database.pendingOf (db Fixture.worldInTransaction) 7 ++ written
    ∧ map Database.writtenRow written `prefix_of` [1; 2; 3; 4]%positive.
Proof.
  destruct (inherited_failure_leaves_the_earlier_writes_pending
              Fixture.persist Fixture.userPosts [2; 3; 4]%positive
              Fixture.worldInTransaction 7
              (ConstraintViolationError "title"))
    as (written & Hpending & _ & Hpre & _); [by vm_compute..|].
  by exists written.
Defined.

(** ** What reaches the related model: values *)

Lemma map_ext_Forall {A B} (f g : A -> B) (xs : list A) :
  Forall (fun x => f x = g x) xs -> map f xs = map g xs.
Proof. induction 1 as [|x xs Hx _ IH]; [done|]. simpl. by rewrite Hx, IH. Qed.

Section Received.

Import HasManyQueryClient.

Variable persist : Database.t -> LucidRow -> Result Fields.
Variable relatedModel :
  RelatedCall -> gmap ref LucidRow -> Database.t ->
  Result Returned * gmap ref LucidRow * Database.t.
Variable this : t.
Variable key : Value.

(** The fields of the object [source] with the foreign key set. *)
Local Abbreviation scoped := (fun (os : gmap ref Fields) (source : ref) =>
  setField (os !!! source) (foreignKey (relation this)) key) (only parsing).

Local Abbreviation resolves := (fun w : World =>
  getValue (attributes (rows w !!! parent this)) (localKey (relation this))
           (relation this) "persist" = Ok key) (only parsing).

(** [Object.assign({}, source)] followed by the hydration of the copy,
    when the parent's key resolves. *)
Lemma copy_with_key {A} (source : ref) (k : ref -> M A) (w : World) :
  resolves w ->
  (let* valueToPersist := objectAssign source in
   hydrateForPersistance (relation this) (parent this)
     (AnObject valueToPersist) ;;
   k valueToPersist) w
  = k (fresh (dom (objects w))) (withCopy (scoped (objects w) source) w).
Proof.
  intros Hkey. unfold bind, objectAssign, hydrateForPersistance. simpl.
  rewrite Hkey. simpl. f_equal. unfold withCopy, withObjects. simpl.
  by rewrite lookup_total_insert_eq, insert_insert_eq.
Qed.

Lemma saved_parent_resolves (stored : Fields) (w : World) :
  getValue stored (localKey (relation this)) (relation this) "persist" = Ok key ->
  resolves (afterParentSave this stored w).
Proof.
  intros Hkey. unfold afterParentSave, afterSave. simpl.
  by rewrite lookup_total_insert_eq.
Qed.

Lemma objects_afterParentSave (stored : Fields) (w : World) :
  objects (afterParentSave this stored w) = objects w.
Proof. unfold afterParentSave, afterSave. simpl. apply objects_worldAtWork. Qed.

Lemma read_after_copy (fields f : Fields) (object : ref) (w : World) :
  objects w !! object = Some f ->
  objects (withCopy fields w) !!! object = f.
Proof.
  intros Hf. apply lookup_total_correct.
  eapply lookup_weaken; [exact Hf|apply objects_withCopy].
Qed.

(** The copies [createMany] makes, one per value and each at a new
    reference, when the parent's key resolves. *)
Lemma copies_loop (values : list ref) (w : World) :
  resolves w ->
  Forall (fun v => is_Some (objects w !! v)) values ->
  ∃ copies os,
    mapM (fun value =>
      let* valueToPersist := objectAssign value in
      hydrateForPersistance (relation this) (parent this)
        (AnObject valueToPersist) ;;
      ret valueToPersist) values w
    = (Ok copies, withObjects w os)
    ∧ objects w ⊆ os
    ∧ map (fun r => os !!! r) copies = map (scoped (objects w)) values.
Proof.
  revert w. induction values as [|v rest IH]; intros w Hkey Hvalues.
  - exists [], (objects w). by destruct w.
  - apply Forall_cons in Hvalues as [[f Hv] Hrest].
    set (w1 := withCopy (scoped (objects w) v) w).
    assert (Hsub : objects w ⊆ objects w1) by apply objects_withCopy.
    destruct (IH w1) as (copies & os & Hrun & Hos & Hmap); [done| |].
    { eapply Forall_impl; [exact Hrest|]. intros v' [f' Hv'].
      exists f'. by eapply lookup_weaken. }
    exists (fresh (dom (objects w)) :: copies), os.
    split; [|split].
    + cbn [mapM].
      assert (Hstep : ∀ (k : ref -> M (list ref)),
        (let* y := (let* valueToPersist := objectAssign v in
                    hydrateForPersistance (relation this) (parent this)
                      (AnObject valueToPersist) ;;
                    ret valueToPersist) in k y) w
        = k (fresh (dom (objects w))) w1).
      { intros k. unfold bind, objectAssign, hydrateForPersistance, ret.
        simpl. rewrite Hkey. simpl. f_equal. subst w1.
        unfold withCopy, withObjects. simpl.
        by rewrite lookup_total_insert_eq, insert_insert_eq. }
      rewrite Hstep. unfold bind at 1. by rewrite Hrun.
    + by etrans.
    + simpl. f_equal.
      * apply lookup_total_correct. eapply lookup_weaken; [|exact Hos].
        subst w1. unfold withCopy. simpl. apply lookup_insert_eq.
      * rewrite Hmap. apply map_ext_Forall.
        eapply Forall_impl; [exact Hrest|]. intros v' [f' Hv']. simpl.
        f_equal. rewrite (lookup_total_correct _ _ _ Hv').
        by apply read_after_copy.
Qed.

(** X10. Once the storage has accepted the parent and its local key
    resolves in the fields the storage answered with (a generated key
    among them), [create], [firstOrCreate] and [updateOrCreate] call
    the related model exactly once: with the fields of the caller's
    values or search object in which the foreign key is set to that
    key, with the save or update payload as the caller's object holds
    it, and with the caller's options spread over the handle. What that
    call returns or throws is the outcome of the operation. *)
Theorem single_payload_operations_hand_over_the_hydrated_copy
    (stored : Fields) (w : World) :
  persist (db (worldAtWork this w)) (parentAtWork this w) = Ok stored ->
  getValue stored (localKey (relation this)) (relation this) "persist" = Ok key ->
  let h := handleOf this w in
  let delegated (op : WriteOperation) (source : ref) (call : RelatedCall) :=
    let inner :=
      callRelated relatedModel call
        (withCopy (scoped (objects w) source) (afterParentSave this stored w)) in
    run persist relatedModel this op w = (inner.1, closed this w inner.1 inner.2) in
  (∀ values options,
     delegated (Create values options) values
       (RelatedCreate (scoped (objects w) values) (spreadOptions h options)))
  ∧ (∀ search options,
       delegated (FirstOrCreate search None options) search
         (RelatedFirstOrCreate (scoped (objects w) search) None
            (spreadOptions h options)))
  ∧ (∀ search savePayload f options,
       objects w !! savePayload = Some f ->
       delegated (FirstOrCreate search (Some savePayload) options) search
         (RelatedFirstOrCreate (scoped (objects w) search) (Some f)
            (spreadOptions h options)))
  ∧ (∀ search updatePayload f options,
       objects w !! updatePayload = Some f ->
       delegated (UpdateOrCreate search updatePayload options) search
         (RelatedUpdateOrCreate (scoped (objects w) search) f
            (spreadOptions h options))).
Proof.
  intros Hok Hkey h delegated.
  pose proof (saved_parent_resolves stored w Hkey) as Hres.
  pose proof (objects_afterParentSave stored w) as Hobj.
  assert (Hcopy : ∀ fields,
    objects (withCopy fields (afterParentSave this stored w))
      !!! fresh (dom (objects (afterParentSave this stored w)))
    = fields).
  { intros fields. unfold withCopy. simpl. apply lookup_total_insert_eq. }
  assert (Hread : ∀ fields p f, objects w !! p = Some f ->
    objects (withCopy fields (afterParentSave this stored w)) !!! p = f).
  { intros fields p f Hf. apply read_after_copy. by rewrite Hobj. }
  split; [|split; [|split]].
  - intros values options. unfold delegated. cbv zeta.
    rewrite (run_parent_saved persist relatedModel this _ stored w Hok).
    unfold stepsOf. rewrite (copy_with_key _ _ _ Hres).
    unfold bind, readObject, ret. cbn [fst snd]. by rewrite Hcopy, Hobj.
  - intros search options. unfold delegated. cbv zeta.
    rewrite (run_parent_saved persist relatedModel this _ stored w Hok).
    unfold stepsOf. rewrite (copy_with_key _ _ _ Hres).
    unfold bind, readObject, ret. cbn [fst snd]. by rewrite Hcopy, Hobj.
  - intros search savePayload f options Hf. unfold delegated. cbv zeta.
    rewrite (run_parent_saved persist relatedModel this _ stored w Hok).
    unfold stepsOf. rewrite (copy_with_key _ _ _ Hres).
    unfold bind, readObject, ret. cbn [fst snd].
    by rewrite Hcopy, (Hread _ _ f Hf), Hobj.
  - intros search updatePayload f options Hf. unfold delegated. cbv zeta.
    rewrite (run_parent_saved persist relatedModel this _ stored w Hok).
    unfold stepsOf. rewrite (copy_with_key _ _ _ Hres).
    unfold bind, readObject, ret. cbn [fst snd].
    by rewrite Hcopy, (Hread _ _ f Hf), Hobj.
Qed.

(** X11. Under the same conditions [createMany] calls the related model
    exactly once, with one field-value map per value and in the order
    given: the fields of the caller's object with the foreign key set
    to the parent's key. The copies are new objects beside the
    caller's, and the outcome of that call is the outcome of the
    operation. *)
Theorem createMany_hands_over_one_hydrated_copy_per_value
    (values : list ref) (options : option ModelAssignOptions)
    (stored : Fields) (w : World) :
  persist (db (worldAtWork this w)) (parentAtWork this w) = Ok stored ->
  getValue stored (localKey (relation this)) (relation this) "persist" = Ok key ->
  Forall (fun v => is_Some (objects w !! v)) values ->
  ∃ os,
    objects w ⊆ os
    ∧ let inner :=
        callRelated relatedModel
          (RelatedCreateMany (map (scoped (objects w)) values)
             (spreadOptions (handleOf this w) options))
          (withObjects (afterParentSave this stored w) os) in
      run persist relatedModel this (CreateMany values options) w
      = (inner.1, closed this w inner.1 inner.2).
Proof.
  intros Hok Hkey Hvalues.
  pose proof (saved_parent_resolves stored w Hkey) as Hres.
  pose proof (objects_afterParentSave stored w) as Hobj.
  destruct (copies_loop values (afterParentSave this stored w) Hres)
    as (copies & os & Hrun & Hos & Hmap); [by rewrite Hobj|].
  rewrite Hobj in Hos, Hmap.
  exists os. split; [done|]. cbv zeta.
  rewrite (run_parent_saved persist relatedModel this _ stored w Hok).
  assert (Hsteps :
    stepsOf persist relatedModel this (CreateMany values options)
      (handleOf this w) (afterParentSave this stored w)
    = callRelated relatedModel
        (RelatedCreateMany (map (scoped (objects w)) values)
           (spreadOptions (handleOf this w) options))
        (withObjects (afterParentSave this stored w) os)).
  { unfold stepsOf. unfold bind at 1. rewrite Hrun.
    unfold bind at 1. rewrite mapM_readObject. cbn [objects withObjects].
    by rewrite Hmap. }
  by rewrite Hsteps.
Qed.

End Received.

(** X10, at [create] with the payload object 1 through the user of the
    world, whose [id] is 1. *)
Lemma single_payload_operations_hand_over_the_hydrated_copy_witness :
  (HasManyQueryClient.run Fixture.persist Fixture.relatedModel
     Fixture.userPosts (HasManyQueryClient.Create 1%positive None)
     Fixture.world).1
  = Ok (RRows [5%positive]).
Proof.
  destruct (single_payload_operations_hand_over_the_hydrated_copy
              Fixture.persist Fixture.relatedModel Fixture.userPosts
              (VNum 1) {[ "id" := VNum 1 ]} Fixture.world)
    as (Hcreate & _); [by vm_compute..|].
  rewrite (Hcreate 1%positive None). by vm_compute.
Defined.

(** X11, at [createMany] with the payload objects 1 and 3. *)
Lemma createMany_hands_over_one_hydrated_copy_per_value_witness :
  ∃ os,
    objects Fixture.world ⊆ os
    ∧ (HasManyQueryClient.run Fixture.persist Fixture.relatedModel
         Fixture.userPosts
         (HasManyQueryClient.CreateMany [1; 3]%positive None)
         Fixture.world).1
      = (HasManyQueryClient.callRelated Fixture.relatedModel
           (RelatedCreateMany
              [<["authorId" := VNum 1]> (Fixture.titled (VStr "a"));
               <["authorId" := VNum 1]> (Fixture.titled (VStr "c"))]
              {| adapterClient := Some (TrxClient 0); adapterRest := ∅ |})
           (withObjects
              (afterParentSave Fixture.userPosts {[ "id" := VNum 1 ]}
                 Fixture.world) os)).1.
Proof.
  destruct (createMany_hands_over_one_hydrated_copy_per_value
              Fixture.persist Fixture.relatedModel Fixture.userPosts
              (VNum 1) [1; 3]%positive None {[ "id" := VNum 1 ]}
              Fixture.world)
    as (os & Hos & Hrun).
  - by vm_compute.
  - by vm_compute.
  - repeat (apply Forall_cons_2; [vm_compute; by eexists|]). by apply Forall_nil.
  - exists os. split; [done|]. cbv zeta in Hrun. rewrite Hrun. reflexivity.
Defined.
